(** * Amount and Wallet: a shallow embedding of the SDK core

    The development follows the TypeScript sources:
    - [types/amount.ts]  (class [Amount]): fixed-point token amounts;
    - [wallet/index.ts]  (class [Wallet]): readiness, fee dispatch, preflight.

    JavaScript strings are lists of characters, [bigint] is [Z], a method
    that may throw returns an [Outcome], and the asynchronous methods of the
    wallet run in a small writer/exception monad that records every call made
    to an external collaborator. *)

From Stdlib Require Import Ascii String ZArith QArith Qround Bool Lia Arith List.
Import ListNotations.

(* ------------------------------------------------------------------ *)
(** ** JavaScript strings, regular expressions and BigInt               *)
(* ------------------------------------------------------------------ *)

Module JS.

(** A JavaScript string, as its sequence of code units. *)
Definition str := list ascii.

(** A string literal. *)
Definition lit (s : string) : str := list_ascii_of_string s.

Definition is_digit (c : ascii) : bool :=
  ((48 <=? nat_of_ascii c) && (nat_of_ascii c <=? 57))%nat.

Definition is_dot (c : ascii) : bool := Ascii.eqb c "."%char.

Definition is_zero_char (c : ascii) : bool := Ascii.eqb c "0"%char.

(** *** Regular expressions and whole-string matching

    Both patterns of [amount.ts] are anchored ([^...$]) and carry no flag, so
    [s.match(re)] is non-null exactly when the whole of [s] is in the
    language of the pattern.  Matching is by Brzozowski derivatives. *)
Inductive regex : Type :=
| Void : regex
| Eps : regex
| Chr : (ascii -> bool) -> regex
| Cat : regex -> regex -> regex
| Alt : regex -> regex -> regex
| Star : regex -> regex.

Fixpoint nullable (r : regex) : bool :=
  match r with
  | Void => false
  | Eps => true
  | Chr _ => false
  | Cat r1 r2 => nullable r1 && nullable r2
  | Alt r1 r2 => nullable r1 || nullable r2
  | Star _ => true
  end.

Fixpoint deriv (c : ascii) (r : regex) : regex :=
  match r with
  | Void => Void
  | Eps => Void
  | Chr p => if p c then Eps else Void
  | Cat r1 r2 =>
      if nullable r1
      then Alt (Cat (deriv c r1) r2) (deriv c r2)
      else Cat (deriv c r1) r2
  | Alt r1 r2 => Alt (deriv c r1) (deriv c r2)
  | Star r1 => Cat (deriv c r1) (Star r1)
  end.

Fixpoint matches (r : regex) (s : str) : bool :=
  match s with
  | [] => nullable r
  | c :: s' => matches (deriv c r) s'
  end.

(** [r+] and [r?]. *)
Definition Plus (r : regex) : regex := Cat r (Star r).
Definition Opt (r : regex) : regex := Alt Eps r.

(** The pattern [/^\d+(\.\d+)?$/] of [fromUnit], [multiply] and [divide]. *)
Definition NUMERAL : regex :=
  Cat (Plus (Chr is_digit)) (Opt (Cat (Chr is_dot) (Plus (Chr is_digit)))).

(** The denotation of a pattern, used to state what [matches] decides. *)
Inductive lang : regex -> str -> Prop :=
| lang_eps : lang Eps []
| lang_chr : forall (p : ascii -> bool) c, p c = true -> lang (Chr p) [c]
| lang_cat : forall r1 r2 u v,
    lang r1 u -> lang r2 v -> lang (Cat r1 r2) (u ++ v)
| lang_alt_l : forall r1 r2 u, lang r1 u -> lang (Alt r1 r2) u
| lang_alt_r : forall r1 r2 u, lang r2 u -> lang (Alt r1 r2) u
| lang_star_nil : forall r, lang (Star r) []
| lang_star_cons : forall r u v,
    lang r u -> lang (Star r) v -> lang (Star r) (u ++ v).

(** *** String methods *)

(** [s === t] on strings. *)
Fixpoint str_eqb (s t : str) : bool :=
  match s, t with
  | [], [] => true
  | c :: s', d :: t' => Ascii.eqb c d && str_eqb s' t'
  | _, _ => false
  end.

(** [s.padEnd(n, c)] and [s.padStart(n, c)] for a one-character filler. *)
Definition padEnd (s : str) (n : nat) (c : ascii) : str :=
  s ++ repeat c (n - length s).

Definition padStart (s : str) (n : nat) (c : ascii) : str :=
  repeat c (n - length s) ++ s.

(** A relative index of [slice]: negative indices count from the end, and
    the result is clamped to [0 .. len]. *)
Definition rel_index (len : nat) (i : Z) : nat :=
  if (i <? 0)%Z
  then Z.to_nat (Z.max (Z.of_nat len + i) 0)
  else Nat.min (Z.to_nat i) len.

(** [s.slice(a, b)] and [s.slice(a)]. *)
Definition slice (s : str) (a b : Z) : str :=
  let from := rel_index (length s) a in
  let upto := rel_index (length s) b in
  firstn (upto - from) (skipn from s).

Definition slice_from (s : str) (a : Z) : str :=
  skipn (rel_index (length s) a) s.

(** [s.split(sep)] for a one-character separator: never the empty array. *)
Fixpoint split (sep : ascii) (s : str) : list str :=
  match s with
  | [] => [[]]
  | c :: s' =>
      if Ascii.eqb c sep then [] :: split sep s'
      else match split sep s' with
           | [] => [[c]]
           | p :: ps => (c :: p) :: ps
           end
  end.

(** [s.replace(/0+$/, empty)]: the maximal run of zeros at the end is
    removed. *)
Fixpoint drop_zeros (s : str) : str :=
  match s with
  | c :: s' => if is_zero_char c then drop_zeros s' else s
  | [] => []
  end.

Definition replace_trailing_zeros (s : str) : str := rev (drop_zeros (rev s)).

(** *** BigInt *)

Definition digit_val (c : ascii) : Z := Z.of_nat (nat_of_ascii c) - 48.

Definition digit_char (d : Z) : ascii := ascii_of_nat (48 + Z.to_nat d).

(** The value of a string of decimal digits, most significant first. *)
Definition parse_digits (s : str) : Z :=
  fold_left (fun acc c => 10 * acc + digit_val c)%Z s 0%Z.

(** [BigInt(s)] on the strings the amount code passes it: a string of decimal
    digits (the empty string is [0n]); anything else is a [SyntaxError],
    [None] here. *)
Definition BigInt (s : str) : option Z :=
  if forallb is_digit s then Some (parse_digits s) else None.

(** Decimal digits of a non-negative integer.  [fuel] bounds the number of
    divisions by ten; [digits_of] supplies [log2 n], which is enough. *)
Fixpoint digits_fuel (fuel : nat) (n : Z) (acc : str) : str :=
  let acc' := digit_char (n mod 10) :: acc in
  match fuel with
  | O => acc'
  | S f => if (n <? 10)%Z then acc' else digits_fuel f (n / 10) acc'
  end.

Definition digits_of (n : Z) : str :=
  digits_fuel (Z.to_nat (Z.log2 n)) n [].

(** [b.toString()] for a bigint [b]. *)
Definition BigInt_toString (b : Z) : str :=
  if (b <? 0)%Z then "-"%char :: digits_of (- b) else digits_of b.

End JS.

(* ------------------------------------------------------------------ *)
(** ** Outcomes of calls that may throw                                 *)
(* ------------------------------------------------------------------ *)

(** What a [catch] clause can receive: an instance of [Error] with its
    message, or any other thrown value. *)
Inductive Thrown : Type :=
| ErrorObj (message : JS.str)
| NonError (description : JS.str).

Inductive Outcome (E A : Type) : Type :=
| Returns (a : A)
| Throws (e : E).

Arguments Returns {E A} a.
Arguments Throws {E A} e.

Definition returned {E A} (o : Outcome E A) : bool :=
  match o with Returns _ => true | Throws _ => false end.

(* ------------------------------------------------------------------ *)
(** ** [Amount] (types/amount.ts)                                       *)
(* ------------------------------------------------------------------ *)

Module Amount.
Import JS.

(** [AmountInput = string | number | bigint], with the inputs whose
    [toString()] is modelled: a string, a bigint, and a number holding an
    integer below [1e21] in magnitude (printed as its decimal numeral). *)
Inductive AmountInput : Type :=
| InString (s : str)
| InBigInt (b : Z)
| InNumber (n : Z).

Definition input_toString (x : AmountInput) : str :=
  match x with
  | InString s => s
  | InBigInt b => BigInt_toString b
  | InNumber n => BigInt_toString n
  end.

(** The errors thrown by the class, one constructor per [throw]. *)
Inductive AmountError : Type :=
| InvalidUnitAmount (amountStr : str)
| PrecisionOverflow (amountStr : str) (decimals : nat)
| InvalidMultiplier (multiplierStr : str)
| InvalidDivisor (divisorStr : str)
| DivisionByZero
| DifferentDecimals (mine theirs : nat)
| DifferentSymbols (mine theirs : str)
| BigIntSyntaxError (s : str).

Definition Result := Outcome AmountError.

(** The three private fields. *)
Record t : Type := mk {
  baseValue : Z;
  decimals : nat;
  symbol : option str
}.

Definition bind {A B} (m : Result A) (k : A -> Result B) : Result B :=
  match m with
  | Returns a => k a
  | Throws e => Throws e
  end.

Notation "x <- m ;; k" := (bind m (fun x => k))
  (at level 61, m at next level, right associativity).

(** [BigInt(s)], throwing a [SyntaxError] when [s] is not a numeral. *)
Definition toBigInt (s : str) : Result Z :=
  match BigInt s with
  | Some b => Returns b
  | None => Throws (BigIntSyntaxError s)
  end.

(** The destructuring of [s.split(".")]: [integer] is the first part and
    [fraction] the second, the empty string when there is none. *)
Definition integer_of (s : str) : str := nth 0 (split "." s) [].
Definition fraction_of (s : str) : str := nth 1 (split "." s) [].

Definition fromUnit (amount : AmountInput) (decimals : nat)
    (symbol : option str) : Result t :=
  let amountStr := input_toString amount in
  if negb (matches NUMERAL amountStr) then
    Throws (InvalidUnitAmount amountStr)
  else
    let integer := integer_of amountStr in
    let fraction := fraction_of amountStr in
    if (decimals <? length fraction)%nat then
      Throws (PrecisionOverflow amountStr decimals)
    else
      let paddedFraction := padEnd fraction decimals "0" in
      baseValue <- toBigInt (integer ++ paddedFraction) ;;
      Returns (mk baseValue decimals symbol).

(** [fromBase] for a bigint input: [BigInt(b)] is [b]. *)
Definition fromBase (amount : Z) (decimals : nat) (symbol : option str) : t :=
  mk amount decimals symbol.

Definition toBase (a : t) : Z := baseValue a.

Definition toUnit (a : t) : str :=
  if (decimals a =? 0)%nat then BigInt_toString (baseValue a)
  else
    let valueStr := BigInt_toString (baseValue a) in
    let padded := padStart valueStr (decimals a + 1) "0" in
    let integer := slice padded 0 (- Z.of_nat (decimals a)) in
    let fraction := slice_from padded (- Z.of_nat (decimals a)) in
    let cleanFraction := replace_trailing_zeros fraction in
    match cleanFraction with
    | [] => integer
    | _ :: _ => integer ++ "."%char :: cleanFraction
    end.

Definition getDecimals (a : t) : nat := decimals a.
Definition getSymbol (a : t) : option str := symbol a.

(** Both symbols set and different. *)
Definition symbols_differ (x y : option str) : bool :=
  match x, y with
  | Some s1, Some s2 => negb (str_eqb s1 s2)
  | _, _ => false
  end.

Definition isCompatible (a other : t) : bool :=
  if negb (decimals a =? decimals other)%nat then false
  else if symbols_differ (symbol a) (symbol other) then false
  else true.

Definition assertCompatible (a other : t) : Result unit :=
  if negb (decimals a =? decimals other)%nat then
    Throws (DifferentDecimals (decimals a) (decimals other))
  else
    match symbol a, symbol other with
    | Some s1, Some s2 =>
        if negb (str_eqb s1 s2) then Throws (DifferentSymbols s1 s2)
        else Returns tt
    | _, _ => Returns tt
    end.

(** [x ?? y] on an optional symbol. *)
Definition nullish (x y : option str) : option str :=
  match x with Some _ => x | None => y end.

Definition add (a other : t) : Result t :=
  _ <- assertCompatible a other ;;
  Returns (mk (baseValue a + baseValue other) (decimals a)
              (nullish (symbol a) (symbol other))).

Definition subtract (a other : t) : Result t :=
  _ <- assertCompatible a other ;;
  Returns (mk (baseValue a - baseValue other) (decimals a)
              (nullish (symbol a) (symbol other))).

Definition PRECISION : nat := 18.

(** Division of bigints truncates toward zero: [Z.quot]. *)
Definition multiply (a : t) (multiplier : AmountInput) : Result t :=
  let multiplierStr := input_toString multiplier in
  if negb (matches NUMERAL multiplierStr) then
    Throws (InvalidMultiplier multiplierStr)
  else
    let scaleFactor := (10 ^ Z.of_nat PRECISION)%Z in
    let integer := integer_of multiplierStr in
    let fraction := fraction_of multiplierStr in
    let paddedFraction :=
      slice (padEnd fraction PRECISION "0") 0 (Z.of_nat PRECISION) in
    scaledMultiplier <- toBigInt (integer ++ paddedFraction) ;;
    let result := Z.quot (baseValue a * scaledMultiplier) scaleFactor in
    Returns (mk result (decimals a) (symbol a)).

Definition divide (a : t) (divisor : AmountInput) : Result t :=
  let divisorStr := input_toString divisor in
  if negb (matches NUMERAL divisorStr) then
    Throws (InvalidDivisor divisorStr)
  else
    let scaleFactor := (10 ^ Z.of_nat PRECISION)%Z in
    let integer := integer_of divisorStr in
    let fraction := fraction_of divisorStr in
    let paddedFraction :=
      slice (padEnd fraction PRECISION "0") 0 (Z.of_nat PRECISION) in
    scaledDivisor <- toBigInt (integer ++ paddedFraction) ;;
    if (scaledDivisor =? 0)%Z then Throws DivisionByZero
    else
      let scaledBase := (baseValue a * scaleFactor)%Z in
      let result := Z.quot scaledBase scaledDivisor in
      Returns (mk result (decimals a) (symbol a)).

Definition eq (a other : t) : bool :=
  if negb (isCompatible a other) then false
  else (baseValue a =? baseValue other)%Z.

Definition gt (a other : t) : bool :=
  if negb (isCompatible a other) then false
  else (baseValue a >? baseValue other)%Z.

Definition gte (a other : t) : bool :=
  if negb (isCompatible a other) then false
  else (baseValue a >=? baseValue other)%Z.

Definition lt (a other : t) : bool :=
  if negb (isCompatible a other) then false
  else (baseValue a <? baseValue other)%Z.

Definition lte (a other : t) : bool :=
  if negb (isCompatible a other) then false
  else (baseValue a <=? baseValue other)%Z.

Definition isZero (a : t) : bool := (baseValue a =? 0)%Z.
Definition isPositive (a : t) : bool := (baseValue a >? 0)%Z.

(** [toUnit] of a result, for chains such as [x.multiply(m).divide(d).toUnit()]. *)
Definition toUnit_of (r : Result t) : Result str :=
  a <- r ;; Returns (toUnit a).

End Amount.

(* ------------------------------------------------------------------ *)
(** ** [Wallet] (wallet/index.ts)                                       *)
(* ------------------------------------------------------------------ *)

Module Wallet.
Import JS.

(** *** Data exchanged with the collaborators *)

(** Modelled from the spec: the declarations of [types/wallet.ts]
    ([FeeMode], [DeployMode], [ProgressStep] and the option and result
    types below) are not among the sources; the values are the literals
    the wallet code compares with and the spec lists (sections 3 and 4.2). *)
Inductive FeeMode : Type := user_pays | sponsored.
Inductive DeployMode : Type := if_needed | always | never.
Inductive ProgressStep : Type := CONNECTED | CHECK_DEPLOYED | DEPLOYING | READY.

(** [Call] of starknet.js. *)
Record Call : Type := {
  contractAddress : str;
  entrypoint : str;
  calldata : list str
}.

(** [types/sponsorship.ts]: the hint, the request and the response. *)
Record SponsorPolicyHint : Type := {
  action : str;
  extra : list (str * str)
}.

Record SponsorshipRequest : Type := {
  calls : list Call;
  callerAddress : str;
  chainId : str;
  policyHint : option SponsorPolicyHint
}.

Record ResourceBounds : Type := {
  l1_gas : Z * Z;
  l2_gas : Z * Z;
  l1_data_gas : Z * Z
}.

Record SponsorshipResponse : Type := {
  resourceBounds : option ResourceBounds;
  paymasterData : option (list Z);
  accountDeploymentData : option (list Z);
  tip : option Z
}.

(** [Partial<UniversalDetails>], with the four fields the wallet sets. *)
Record UniversalDetails : Type := {
  d_resourceBounds : option ResourceBounds;
  d_paymasterData : option (list Z);
  d_accountDeploymentData : option (list Z);
  d_tip : option Z
}.

(** The argument of [account.deployAccount]: the deploy payload, with the
    fee options spread into the same object. *)
Record DeployAccountPayload : Type := {
  classHash : str;
  constructorCalldata : list str;
  addressSalt : str;
  feeOptions : UniversalDetails
}.

(** The part of a simulation response [preflight] inspects.  The key
    [revert_reason] is present in a reverted invocation only; its value may
    still be undefined. *)
Inductive ExecuteInvocation : Type :=
| FunctionInvocation
| Reverted (revert_reason : option str).

Record TransactionTrace : Type := {
  execute_invocation : option ExecuteInvocation
}.

Record SimulatedTransaction : Type := {
  transaction_trace : option TransactionTrace
}.

(** Modelled from the spec: [PreflightResult] of [types/wallet.ts], the
    structured outcome [{ ok: true }] or [{ ok: false, reason }]. *)
Inductive PreflightResult : Type :=
| PreflightOk
| PreflightFailed (reason : str).

(** Modelled from the spec: the transaction handle of [tx/index.ts], of
    which the wallet uses the hash it is built from and [wait]. *)
Record Tx : Type := { transaction_hash : str }.

(** *** The monad of the asynchronous methods

    A computation yields the calls it made to the outside, in order, and
    either a value or the exception it rejected with. *)
Inductive Event : Type :=
| EvProgress (step : ProgressStep)
| EvGetAddress
| EvGetClassHashAt (address : str)
| EvGetPublicKey
| EvGetSponsorship (request : SponsorshipRequest)
| EvDeployAccount (payload : DeployAccountPayload)
| EvExecute (calls : list Call) (details : option UniversalDetails)
| EvSimulateTransaction (calls : list Call)
| EvWait (transaction_hash : str)
| EvDeploy.

Definition M (A : Type) : Type := list Event * Outcome Thrown A.

Definition ret {A} (a : A) : M A := ([], Returns a).

Definition throw {A} (e : Thrown) : M A := ([], Throws e).

Definition bind {A B} (m : M A) (k : A -> M B) : M B :=
  match m with
  | (tr, Returns a) => let (tr', o) := k a in (tr ++ tr', o)
  | (tr, Throws e) => (tr, Throws e)
  end.

(** [try { m } catch (error) { handler error }]. *)
Definition try_catch {A} (m : M A) (handler : Thrown -> M A) : M A :=
  match m with
  | (tr, Returns a) => (tr, Returns a)
  | (tr, Throws e) => let (tr', o) := handler e in (tr ++ tr', o)
  end.

(** A call to a collaborator: the call is recorded, its outcome is the
    collaborator's. *)
Definition call {A} (ev : Event) (o : Outcome Thrown A) : M A := ([ev], o).

Definition trace {A} (m : M A) : list Event := fst m.
Definition outcome {A} (m : M A) : Outcome Thrown A := snd m.

Notation "x <- m ;; k" := (bind m (fun x => k))
  (at level 61, m at next level, right associativity).
Notation "m ;;; k" := (bind m (fun _ => k))
  (at level 61, right associativity).

(** *** The collaborators

    The network client ([RpcProvider]), the account ([Account]), the account
    provider and the transaction handle are outside the wallet; each is the
    function from the arguments of a call to its outcome. *)
Record Env : Type := {
  getAddress : Outcome Thrown str;
  getClassHashAt : str -> Outcome Thrown (option str);
  getClassHash : str;
  getPublicKey : Outcome Thrown str;
  getConstructorCalldata : str -> list str;
  deployAccount : DeployAccountPayload -> Outcome Thrown str;
  account_execute : list Call -> option UniversalDetails -> Outcome Thrown str;
  simulateTransaction : list Call -> Outcome Thrown (list SimulatedTransaction);
  tx_wait : str -> Outcome Thrown unit
}.

(** Modelled from the spec: [SponsorConfig] and the fields of [SDKConfig]
    the wallet reads; the sponsor is the injected callback of section 6. *)
Record SponsorConfig : Type := {
  getSponsorship : SponsorshipRequest -> Outcome Thrown SponsorshipResponse
}.

Record SDKConfig : Type := {
  cfg_chainId : str;
  cfg_sponsor : option SponsorConfig
}.

(** The fields of a wallet that its methods read. *)
Record t : Type := {
  address : str;
  config : SDKConfig;
  sponsor : option SponsorConfig;
  defaultFeeMode : FeeMode;
  defaultPolicyHint : option SponsorPolicyHint
}.

(** Modelled from the spec: the option objects of [types/wallet.ts], with
    the fields the methods read.  [ensureReady] hands its options object to
    [deploy], which reads [feeMode] and [sponsorPolicyHint] from it. *)
Record EnsureReadyOptions : Type := {
  deploy_mode : option DeployMode;
  onProgress : option (ProgressStep -> Outcome Thrown unit);
  er_feeMode : option FeeMode;
  er_sponsorPolicyHint : option SponsorPolicyHint
}.

Record DeployOptions : Type := {
  dep_feeMode : option FeeMode;
  dep_sponsorPolicyHint : option SponsorPolicyHint
}.

Record ExecuteOptions : Type := {
  ex_feeMode : option FeeMode;
  ex_sponsorPolicyHint : option SponsorPolicyHint
}.

Record PreflightOptions : Type := {
  kind : str;
  pf_calls : option (list Call);
  pf_feeMode : option FeeMode
}.

(** [x ?? d] and a defaulted parameter. *)
Definition nullish {A} (x : option A) (d : A) : A :=
  match x with Some a => a | None => d end.

Definition nullish_opt {A} (x d : option A) : option A :=
  match x with Some _ => x | None => d end.

Definition FeeMode_eqb (a b : FeeMode) : bool :=
  match a, b with
  | user_pays, user_pays | sponsored, sponsored => true
  | _, _ => false
  end.

Definition DeployMode_eqb (a b : DeployMode) : bool :=
  match a, b with
  | if_needed, if_needed | always, always | never, never => true
  | _, _ => false
  end.

(** [!!classHash] for a possibly undefined string. *)
Definition truthy (v : option str) : bool :=
  match v with
  | Some (_ :: _) => true
  | _ => false
  end.

(** [error instanceof Error ? error.message : "Unknown error"]. *)
Definition message_or_unknown (error : Thrown) : str :=
  match error with
  | ErrorObj message => message
  | NonError _ => lit "Unknown error"
  end.

(** The private constructor: [this.sponsor = config.sponsor]. *)
Definition new_Wallet (address : str) (config : SDKConfig)
    (defaultFeeMode : FeeMode) (defaultPolicyHint : option SponsorPolicyHint)
    : t :=
  {| address := address;
     config := config;
     sponsor := cfg_sponsor config;
     defaultFeeMode := defaultFeeMode;
     defaultPolicyHint := defaultPolicyHint |}.

Definition is_none {A} (x : option A) : bool :=
  match x with None => true | Some _ => false end.

(** [Wallet.create]: the sponsor check comes first, then the address. *)
Definition create (env : Env) (config : SDKConfig)
    (defaultFeeMode : option FeeMode)
    (defaultPolicyHint : option SponsorPolicyHint) : M t :=
  let defaultFeeMode := nullish defaultFeeMode user_pays in
  if FeeMode_eqb defaultFeeMode sponsored && is_none (cfg_sponsor config) then
    throw (ErrorObj (lit
      "Cannot use feeMode='sponsored' without configuring sponsor in SDKConfig"))
  else
    address <- call EvGetAddress (getAddress env) ;;
    ret (new_Wallet address config defaultFeeMode defaultPolicyHint).

(** [onProgress?.({ step })]. *)
Definition progress (options : EnsureReadyOptions) (step : ProgressStep)
    : M unit :=
  match onProgress options with
  | Some callback => call (EvProgress step) (callback step)
  | None => ret tt
  end.

Section Methods.

Variable env : Env.
Variable this : t.

Definition isDeployed : M bool :=
  try_catch
    (classHash <- call (EvGetClassHashAt (address this))
                       (getClassHashAt env (address this)) ;;
     ret (truthy classHash))
    (fun _ => ret false).

Definition requestSponsorship (calls : list Call)
    (policyHint : option SponsorPolicyHint) : M SponsorshipResponse :=
  match sponsor this with
  | None =>
      throw (ErrorObj (lit
        "Sponsor not configured. Set sponsor in SDKConfig to use feeMode='sponsored'"))
  | Some sp =>
      let request := {| calls := calls;
                        callerAddress := address this;
                        chainId := cfg_chainId (config this);
                        policyHint := policyHint |} in
      try_catch
        (call (EvGetSponsorship request) (getSponsorship sp request))
        (fun error =>
           throw (ErrorObj (lit "Sponsorship rejected: "
                              ++ message_or_unknown error)))
  end.

Definition buildFeeOptions (sponsorship : SponsorshipResponse)
    : UniversalDetails :=
  {| d_resourceBounds := resourceBounds sponsorship;
     d_paymasterData := paymasterData sponsorship;
     d_accountDeploymentData := accountDeploymentData sponsorship;
     d_tip := tip sponsorship |}.

Definition no_details : UniversalDetails :=
  {| d_resourceBounds := None; d_paymasterData := None;
     d_accountDeploymentData := None; d_tip := None |}.

(** [deploy]; the event [EvDeploy] marks the entry into the method. *)
Definition deploy (options : DeployOptions) : M Tx :=
  call EvDeploy (Returns tt) ;;;
  let feeMode := nullish (dep_feeMode options) (defaultFeeMode this) in
  let policyHint :=
    nullish_opt (dep_sponsorPolicyHint options) (defaultPolicyHint this) in
  let classHash := getClassHash env in
  publicKey <- call EvGetPublicKey (getPublicKey env) ;;
  let constructorCalldata := getConstructorCalldata env publicKey in
  let deployPayload details :=
    {| classHash := classHash;
       constructorCalldata := constructorCalldata;
       addressSalt := publicKey;
       feeOptions := details |} in
  if FeeMode_eqb feeMode sponsored then
    sponsorship <- requestSponsorship [] policyHint ;;
    let payload := deployPayload (buildFeeOptions sponsorship) in
    hash <- call (EvDeployAccount payload) (deployAccount env payload) ;;
    ret {| transaction_hash := hash |}
  else
    let payload := deployPayload no_details in
    hash <- call (EvDeployAccount payload) (deployAccount env payload) ;;
    ret {| transaction_hash := hash |}.

Definition execute (calls : list Call) (options : ExecuteOptions) : M Tx :=
  let feeMode := nullish (ex_feeMode options) (defaultFeeMode this) in
  let policyHint :=
    nullish_opt (ex_sponsorPolicyHint options) (defaultPolicyHint this) in
  if FeeMode_eqb feeMode sponsored then
    sponsorship <- requestSponsorship calls policyHint ;;
    let details := Some (buildFeeOptions sponsorship) in
    hash <- call (EvExecute calls details)
                 (account_execute env calls details) ;;
    ret {| transaction_hash := hash |}
  else
    hash <- call (EvExecute calls None) (account_execute env calls None) ;;
    ret {| transaction_hash := hash |}.

(** [tx.wait({ successStates: [ACCEPTED_ON_L2, ACCEPTED_ON_L1] })]. *)
Definition wait (tx : Tx) : M unit :=
  call (EvWait (transaction_hash tx)) (tx_wait env (transaction_hash tx)).

Definition as_deploy_options (options : EnsureReadyOptions) : DeployOptions :=
  {| dep_feeMode := er_feeMode options;
     dep_sponsorPolicyHint := er_sponsorPolicyHint options |}.

Definition ensureReady (options : EnsureReadyOptions) : M unit :=
  let deploy_ := nullish (deploy_mode options) if_needed in
  progress options CONNECTED ;;;
  progress options CHECK_DEPLOYED ;;;
  deployed <- isDeployed ;;
  if deployed && negb (DeployMode_eqb deploy_ always) then
    progress options READY ;;;
    ret tt
  else if negb deployed && DeployMode_eqb deploy_ never then
    throw (ErrorObj (lit "Account not deployed and deploy mode is 'never'"))
  else
    progress options DEPLOYING ;;;
    tx <- deploy (as_deploy_options options) ;;
    wait tx ;;;
    progress options READY.

Definition preflight (options : PreflightOptions) : M PreflightResult :=
  let kind := kind options in
  let calls := nullish (pf_calls options) [] in
  let feeMode := nullish (pf_feeMode options) (defaultFeeMode this) in
  try_catch
    (deployed <- isDeployed ;;
     if negb deployed && negb (str_eqb kind (lit "execute")) then
       ret (PreflightFailed (lit "Account not deployed"))
     else if FeeMode_eqb feeMode sponsored && is_none (sponsor this) then
       ret (PreflightFailed (lit "Sponsor not configured"))
     else if (0 <? length calls)%nat then
       simulation <- call (EvSimulateTransaction calls)
                          (simulateTransaction env calls) ;;
       match nth_error simulation 0 with
       | Some {| transaction_trace :=
                   Some {| execute_invocation :=
                             Some (Reverted revert_reason) |} |} =>
           ret (PreflightFailed
                  (nullish revert_reason (lit "Simulation failed")))
       | _ => ret PreflightOk
       end
     else ret PreflightOk)
    (fun error => ret (PreflightFailed (message_or_unknown error))).

End Methods.

(** What a trace shows: the steps handed to the progress callback, and how
    often [deploy] was entered. *)
Fixpoint progress_steps (tr : list Event) : list ProgressStep :=
  match tr with
  | [] => []
  | EvProgress step :: tr' => step :: progress_steps tr'
  | _ :: tr' => progress_steps tr'
  end.

Fixpoint deploy_count (tr : list Event) : nat :=
  match tr with
  | [] => O
  | EvDeploy :: tr' => S (deploy_count tr')
  | _ :: tr' => deploy_count tr'
  end.

End Wallet.

(* ------------------------------------------------------------------ *)
(** ** Statements of the specification                                  *)
(* ------------------------------------------------------------------ *)

Module Spec.
Import JS.

(** A non-empty string of decimal digits. *)
Definition digits (s : str) : Prop := s <> [] /\ forallb is_digit s = true.

(** [numeral_shape s i f]: [s] is the numeral with integer digits [i] and
    fractional digits [f], where [f] is empty when [s] has no point. *)
Inductive numeral_shape : str -> str -> str -> Prop :=
| shape_integer : forall i, digits i -> numeral_shape i i []
| shape_fraction : forall i f,
    digits i -> digits f -> numeral_shape (i ++ "."%char :: f) i f.

(** Leading zeros removed, down to a last digit. *)
Definition strip_leading_zeros (s : str) : str :=
  match drop_zeros s with
  | [] => ["0"%char]
  | c :: s' => c :: s'
  end.

(** A numeral without the leading zeros of its integer part that a digit
    follows. *)
Fixpoint drop_redundant_zeros (s : str) : str :=
  match s with
  | c :: ((c2 :: _) as s') =>
      if is_zero_char c && is_digit c2 then drop_redundant_zeros s' else s
  | _ => s
  end.

(** A numeral without the zeros that end its fractional part, and without
    the decimal point when nothing is left behind it. *)
Definition drop_trailing_point (s : str) : str :=
  match rev s with
  | c :: r => if is_dot c then rev r else s
  | [] => s
  end.

Definition normalize_unit (s : str) : str :=
  if existsb is_dot s
  then drop_trailing_point (rev (drop_zeros (rev s)))
  else s.

(** The rational number a numeral with integer digits [i] and fractional
    digits [f] denotes. *)
Definition numeral_value (i f : str) : Q :=
  Qmake (parse_digits (i ++ f)) (Z.to_pos (10 ^ Z.of_nat (length f))).

(** A scalar scaled to 18 fractional digits as an integer: the floor of its
    value times [10^18]. *)
Definition scaled18 (i f : str) : Z :=
  Qfloor (numeral_value i f * inject_Z (10 ^ 18)).

(** [10^-18]. *)
Definition smallest_scaled_unit : Q := Qmake 1 (Z.to_pos (10 ^ 18)).

(** Two amounts are compatible iff their decimals match and a symbol is
    unset on at least one side or both symbols match. *)
Definition compatible (a b : Amount.t) : Prop :=
  Amount.decimals a = Amount.decimals b
  /\ (Amount.symbol a = None \/ Amount.symbol b = None
      \/ Amount.symbol a = Amount.symbol b).

(** Incompatible: different decimals, or both symbols set and different. *)
Definition incompatible (a b : Amount.t) : Prop :=
  Amount.decimals a <> Amount.decimals b
  \/ exists s1 s2,
       Amount.symbol a = Some s1 /\ Amount.symbol b = Some s2 /\ s1 <> s2.

End Spec.

(* ------------------------------------------------------------------ *)
(** ** Wallets, networks and sponsors used as examples                  *)
(* ------------------------------------------------------------------ *)

Module Examples.
Import JS Wallet.

Definition plain_config : SDKConfig :=
  {| cfg_chainId := lit "SN_SEPOLIA"; cfg_sponsor := None |}.

(** A wallet that pays its own fees and has no sponsor. *)
Definition plain_wallet : Wallet.t :=
  new_Wallet (lit "0x1") plain_config user_pays None.

(** A network that reports no class hash and accepts every submission. *)
Definition undeployed_network : Env :=
  {| getAddress := Returns (lit "0x1");
     getClassHashAt := fun _ => Returns None;
     getClassHash := lit "0xc1a55";
     getPublicKey := Returns (lit "0xabc");
     getConstructorCalldata := fun publicKey => [publicKey];
     deployAccount := fun _ => Returns (lit "0xdeadbeef");
     account_execute := fun _ _ => Returns (lit "0xfeed");
     simulateTransaction := fun _ => Returns [];
     tx_wait := fun _ => Returns tt |}.

(** The same network once the account is deployed. *)
Definition deployed_network : Env :=
  {| getAddress := Returns (lit "0x1");
     getClassHashAt := fun _ => Returns (Some (lit "0xc1a55"));
     getClassHash := lit "0xc1a55";
     getPublicKey := Returns (lit "0xabc");
     getConstructorCalldata := fun publicKey => [publicKey];
     deployAccount := fun _ => Returns (lit "0xdeadbeef");
     account_execute := fun _ _ => Returns (lit "0xfeed");
     simulateTransaction := fun _ => Returns [];
     tx_wait := fun _ => Returns tt |}.

(** A network that reports no class hash and rejects the deployment. *)
Definition rejecting_network : Env :=
  {| getAddress := Returns (lit "0x1");
     getClassHashAt := fun _ => Returns None;
     getClassHash := lit "0xc1a55";
     getPublicKey := Returns (lit "0xabc");
     getConstructorCalldata := fun publicKey => [publicKey];
     deployAccount := fun _ => Throws (ErrorObj (lit "Insufficient balance"));
     account_execute := fun _ _ => Returns (lit "0xfeed");
     simulateTransaction := fun _ => Returns [];
     tx_wait := fun _ => Returns tt |}.

(** A network whose class-hash query fails. *)
Definition unreachable_network : Env :=
  {| getAddress := Returns (lit "0x1");
     getClassHashAt := fun _ => Throws (ErrorObj (lit "network down"));
     getClassHash := lit "0xc1a55";
     getPublicKey := Returns (lit "0xabc");
     getConstructorCalldata := fun publicKey => [publicKey];
     deployAccount := fun _ => Returns (lit "0xdeadbeef");
     account_execute := fun _ _ => Returns (lit "0xfeed");
     simulateTransaction := fun _ => Returns [];
     tx_wait := fun _ => Returns tt |}.

(** A network on which the account is deployed and simulation fails. *)
Definition failing_simulation_network : Env :=
  {| getAddress := Returns (lit "0x1");
     getClassHashAt := fun _ => Returns (Some (lit "0xc1a55"));
     getClassHash := lit "0xc1a55";
     getPublicKey := Returns (lit "0xabc");
     getConstructorCalldata := fun publicKey => [publicKey];
     deployAccount := fun _ => Returns (lit "0xdeadbeef");
     account_execute := fun _ _ => Returns (lit "0xfeed");
     simulateTransaction := fun _ => Throws (ErrorObj (lit "RPC timeout"));
     tx_wait := fun _ => Returns tt |}.

(** A progress callback that returns normally. *)
Definition observer (step : ProgressStep) : Outcome Thrown unit := Returns tt.

Definition ready_options (mode : option DeployMode) : EnsureReadyOptions :=
  {| deploy_mode := mode;
     onProgress := Some observer;
     er_feeMode := None;
     er_sponsorPolicyHint := None |}.

(** A sponsor that rejects every request. *)
Definition rate_limited : SponsorConfig :=
  {| getSponsorship := fun _ =>
       Throws (ErrorObj (lit "Rate limit exceeded")) |}.

Definition sponsored_wallet : Wallet.t :=
  new_Wallet (lit "0x1")
    {| cfg_chainId := lit "SN_SEPOLIA"; cfg_sponsor := Some rate_limited |}
    sponsored None.

(** A sponsor that rejects every request with a string, not an [Error]. *)
Definition rejecting_with_string : SponsorConfig :=
  {| getSponsorship := fun _ =>
       Throws (NonError (lit "Rate limit exceeded")) |}.

Definition string_rejected_wallet : Wallet.t :=
  new_Wallet (lit "0x1")
    {| cfg_chainId := lit "SN_SEPOLIA";
       cfg_sponsor := Some rejecting_with_string |}
    sponsored None.

Definition test_call : Call :=
  {| contractAddress := lit "0x123";
     entrypoint := lit "test";
     calldata := [] |}.

Definition default_execute_options : ExecuteOptions :=
  {| ex_feeMode := None; ex_sponsorPolicyHint := None |}.

Definition default_deploy_options : DeployOptions :=
  {| dep_feeMode := None; dep_sponsorPolicyHint := None |}.

Definition preflight_execute (cs : option (list Call)) : PreflightOptions :=
  {| kind := lit "execute"; pf_calls := cs; pf_feeMode := None |}.

End Examples.

(* ------------------------------------------------------------------ *)
(** ** Token amounts and ERC20 transfers                                *)
(* ------------------------------------------------------------------ *)

Module TokenAmount.
Import JS.

(** [Token] (types/token.ts). *)
Record Token : Type := {
  name : str;
  address : str;
  decimals : nat;
  symbol : str
}.

Definition fromTokenUnit (amount : Amount.AmountInput) (token : Token)
    : Amount.Result Amount.t :=
  Amount.fromUnit amount (decimals token) (Some (symbol token)).

(** [fromTokenBase] for a bigint input. *)
Definition fromTokenBase (amount : Z) (token : Token) : Amount.t :=
  Amount.fromBase amount (decimals token) (Some (symbol token)).

End TokenAmount.

Module Erc20.
Import JS Wallet.

Section Transfer.

(** [CallData.compile([to, uint256.bnToUint256(amount)])] of starknet.js:
    the calldata of one transfer, from the recipient and the amount. *)
Variable compile_transfer : str -> str -> list str.

(** One element of [args.transfers]. *)
Record TransferItem : Type := {
  to : str;
  amount : str
}.

(** The calls [transfer] builds: one per transfer, in order. *)
Definition transfer_calls (token : TokenAmount.Token)
    (transfers : list TransferItem) : list Call :=
  map (fun transfer =>
         {| contractAddress := TokenAmount.address token;
            entrypoint := lit "transfer";
            calldata := compile_transfer (to transfer) (amount transfer) |})
      transfers.

Definition no_execute_options : ExecuteOptions :=
  {| ex_feeMode := None; ex_sponsorPolicyHint := None |}.

(** [Erc20.transfer]: [options] may be left out, and [execute] then takes
    its default. *)
Definition transfer (env : Env) (token : TokenAmount.Token) (from : Wallet.t)
    (transfers : list TransferItem) (options : option ExecuteOptions)
    : M Tx :=
  let calls := transfer_calls token transfers in
  execute env from calls (nullish options no_execute_options).

End Transfer.

End Erc20.

(* ------------------------------------------------------------------ *)
(** ** The wallet of the paymaster variant                              *)
(* ------------------------------------------------------------------ *)

(** The second copy of the [Wallet] class, whose sponsored transactions
    go through the paymaster built into starknet.js.  Its calls to the
    outside are those of [Wallet], so its methods run in the same monad. *)
Module PaymasterWallet.
Import JS Wallet.

(** The fields of this wallet that the methods below read or that decide
    a fee mode. *)
Record t : Type := {
  address : str;
  defaultFeeMode : FeeMode
}.

Section Methods.

Variable env : Env.
Variable this : t.

Definition isDeployed : M bool :=
  try_catch
    (classHash <- call (EvGetClassHashAt (address this))
                       (getClassHashAt env (address this)) ;;
     ret (truthy classHash))
    (fun _ => ret false).

(** [deploy] takes no options: the payload has the three fields of the
    deployment and nothing else. *)
Definition deploy : M Tx :=
  call EvDeploy (Returns tt) ;;;
  let classHash := getClassHash env in
  publicKey <- call EvGetPublicKey (getPublicKey env) ;;
  let constructorCalldata := getConstructorCalldata env publicKey in
  let payload :=
    {| classHash := classHash;
       constructorCalldata := constructorCalldata;
       addressSalt := publicKey;
       feeOptions := no_details |} in
  hash <- call (EvDeployAccount payload) (deployAccount env payload) ;;
  ret {| transaction_hash := hash |}.

Definition ensureReady (options : EnsureReadyOptions) : M unit :=
  let deploy_ := nullish (deploy_mode options) if_needed in
  progress options CONNECTED ;;;
  progress options CHECK_DEPLOYED ;;;
  deployed <- isDeployed ;;
  if deployed && negb (DeployMode_eqb deploy_ always) then
    progress options READY ;;;
    ret tt
  else if negb deployed && DeployMode_eqb deploy_ never then
    throw (ErrorObj (lit "Account not deployed and deploy mode is 'never'"))
  else
    progress options DEPLOYING ;;;
    tx <- deploy ;;
    wait env tx ;;;
    progress options READY.

(** [preflight] reads [kind] and [calls] only. *)
Definition preflight (options : PreflightOptions) : M PreflightResult :=
  let kind := kind options in
  let calls := nullish (pf_calls options) [] in
  try_catch
    (deployed <- isDeployed ;;
     if negb deployed && negb (str_eqb kind (lit "execute")) then
       ret (PreflightFailed (lit "Account not deployed"))
     else if (0 <? length calls)%nat then
       simulation <- call (EvSimulateTransaction calls)
                          (simulateTransaction env calls) ;;
       match nth_error simulation 0 with
       | Some {| transaction_trace :=
                   Some {| execute_invocation :=
                             Some (Reverted revert_reason) |} |} =>
           ret (PreflightFailed
                  (nullish revert_reason (lit "Simulation failed")))
       | _ => ret PreflightOk
       end
     else ret PreflightOk)
    (fun error => ret (PreflightFailed (message_or_unknown error))).

End Methods.

(** The wallet of this variant at the address and default fee mode of a
    wallet of the other. *)
Definition alongside (w : Wallet.t) : t :=
  {| address := Wallet.address w;
     defaultFeeMode := Wallet.defaultFeeMode w |}.

End PaymasterWallet.

(* ------------------------------------------------------------------ *)
(** ** Readings of a trace                                              *)
(* ------------------------------------------------------------------ *)

Module Traces.
Import JS Wallet.

(** The requests handed to the sponsor callback, in order. *)
Fixpoint sponsorship_requests (tr : list Event) : list SponsorshipRequest :=
  match tr with
  | [] => []
  | EvGetSponsorship request :: tr' => request :: sponsorship_requests tr'
  | _ :: tr' => sponsorship_requests tr'
  end.

(** A transaction handed to the account for submission. *)
Definition is_submission (ev : Event) : bool :=
  match ev with
  | EvDeployAccount _ | EvExecute _ _ => true
  | _ => false
  end.

Definition submissions (tr : list Event) : list Event :=
  filter is_submission tr.

(** A query that changes nothing: the class hash, or a simulation. *)
Definition is_query (ev : Event) : bool :=
  match ev with
  | EvGetClassHashAt _ | EvSimulateTransaction _ => true
  | _ => false
  end.

Definition is_progress (ev : Event) : bool :=
  match ev with
  | EvProgress _ => true
  | _ => false
  end.

(** A trace without the calls to the progress callback. *)
Definition without_progress (tr : list Event) : list Event :=
  filter (fun ev => negb (is_progress ev)) tr.

(** Options that differ in the progress callback only. *)
Definition with_callback (options : EnsureReadyOptions)
    (callback : option (ProgressStep -> Outcome Thrown unit))
    : EnsureReadyOptions :=
  {| deploy_mode := deploy_mode options;
     onProgress := callback;
     er_feeMode := er_feeMode options;
     er_sponsorPolicyHint := er_sponsorPolicyHint options |}.

End Traces.

Module Scenarios.
Import JS Wallet.

Definition sample_bounds : ResourceBounds :=
  {| l1_gas := (1000, 1000000000)%Z;
     l2_gas := (0, 0)%Z;
     l1_data_gas := (0, 0)%Z |}.

Definition sample_response : SponsorshipResponse :=
  {| resourceBounds := Some sample_bounds;
     paymasterData := None;
     accountDeploymentData := None;
     tip := None |}.

(** A sponsor that covers every request. *)
Definition generous : SponsorConfig :=
  {| getSponsorship := fun _ => Returns sample_response |}.

Definition sponsored_config : SDKConfig :=
  {| cfg_chainId := lit "SN_SEPOLIA"; cfg_sponsor := Some generous |}.

Definition onboarding : SponsorPolicyHint :=
  {| action := lit "onboarding"; extra := [(lit "userId", lit "test_123")] |}.

Definition covered_wallet : Wallet.t :=
  new_Wallet (lit "0x1") sponsored_config sponsored (Some onboarding).

(** A wallet whose default mode is sponsored although no sponsor is set,
    which [create] refuses to build. *)
Definition unbacked_wallet : Wallet.t :=
  new_Wallet (lit "0x1") Examples.plain_config sponsored None.

Definition user_pays_options : ExecuteOptions :=
  {| ex_feeMode := Some user_pays; ex_sponsorPolicyHint := None |}.

Definition strk : TokenAmount.Token :=
  {| TokenAmount.name := lit "Starknet Token";
     TokenAmount.address := lit "0x4718";
     TokenAmount.decimals := 18;
     TokenAmount.symbol := lit "STRK" |}.



(** A network with a deployed account whose simulation reverts. *)
Definition reverting_network : Env :=
  {| getAddress := Returns (lit "0x1");
     getClassHashAt := fun _ => Returns (Some (lit "0xc1a55"));
     getClassHash := lit "0xc1a55";
     getPublicKey := Returns (lit "0xabc");
     getConstructorCalldata := fun publicKey => [publicKey];
     deployAccount := fun _ => Returns (lit "0xdeadbeef");
     account_execute := fun _ _ => Returns (lit "0xfeed");
     simulateTransaction := fun _ =>
       Returns [ {| transaction_trace :=
                      Some {| execute_invocation :=
                                Some (Reverted
                                        (Some (lit "ERC20: insufficient balance"))) |} |} ];
     tx_wait := fun _ => Returns tt |}.

End Scenarios.

(* ------------------------------------------------------------------ *)
(** ** Regular expressions: [matches] decides the language              *)
(* ------------------------------------------------------------------ *)

Section RegexFacts.
Import JS.

Lemma lang_void_inv (w : str) : ~ lang Void w.
Proof. intros H. inversion H. Qed.

Lemma lang_eps_inv (w : str) : lang Eps w -> w = [].
Proof. intros H. now inversion H. Qed.

Lemma lang_chr_inv (p : ascii -> bool) (w : str) :
  lang (Chr p) w -> exists c, w = [c] /\ p c = true.
Proof. intros H. inversion H; subst. eauto. Qed.

Lemma lang_cat_inv (r1 r2 : regex) (w : str) :
  lang (Cat r1 r2) w -> exists u v, w = u ++ v /\ lang r1 u /\ lang r2 v.
Proof. intros H. inversion H; subst. eauto. Qed.

Lemma lang_alt_inv (r1 r2 : regex) (w : str) :
  lang (Alt r1 r2) w -> lang r1 w \/ lang r2 w.
Proof. intros H. inversion H; subst; auto. Qed.

Lemma lang_cat_cons (r1 r2 : regex) (c : ascii) (u v : str) :
  lang r1 (c :: u) -> lang r2 v -> lang (Cat r1 r2) (c :: u ++ v).
Proof.
  intros Hu Hv. change (c :: u ++ v) with ((c :: u) ++ v). now constructor.
Qed.

Lemma lang_cat_nil_l (r1 r2 : regex) (v : str) :
  lang r1 [] -> lang r2 v -> lang (Cat r1 r2) v.
Proof.
  intros Hu Hv. change v with ([] ++ v). now constructor.
Qed.

Lemma nullable_lang (r : regex) : nullable r = true <-> lang r [].
Proof.
  induction r as [| | p | r1 IH1 r2 IH2 | r1 IH1 r2 IH2 | r1 IH1]; simpl.
  - split; [discriminate | intros H; now apply lang_void_inv in H].
  - split; [intros _; constructor | reflexivity].
  - split; [discriminate |].
    intros H. apply lang_chr_inv in H. destruct H as (c & Hc & _).
    discriminate.
  - rewrite andb_true_iff, IH1, IH2. split.
    + intros [H1 H2]. now apply lang_cat_nil_l.
    + intros H. apply lang_cat_inv in H.
      destruct H as (u & v & Heq & Hu & Hv). symmetry in Heq.
      apply app_eq_nil in Heq. destruct Heq; subst. now split.
  - rewrite orb_true_iff, IH1, IH2. split.
    + intros [H | H]; [now apply lang_alt_l | now apply lang_alt_r].
    + apply lang_alt_inv.
  - split; [intros _; constructor | reflexivity].
Qed.

Lemma lang_star_cons_inv (r0 : regex) (w : str) :
  lang r0 w ->
  forall r a s, r0 = Star r -> w = a :: s ->
  exists u v, s = u ++ v /\ lang r (a :: u) /\ lang (Star r) v.
Proof.
  induction 1 as [| | | | | r' | r' u v Hu _ Hv IHv];
    intros r a s Hr Hw; try discriminate.
  injection Hr as ->.
  destruct u as [| c' u'].
  - simpl in Hw. now apply IHv.
  - simpl in Hw. injection Hw as -> <-.
    exists u', v. now repeat split.
Qed.

Lemma lang_cat_cons_inv (r1 r2 : regex) (c : ascii) (s : str) :
  lang (Cat r1 r2) (c :: s) ->
  (exists u v, s = u ++ v /\ lang r1 (c :: u) /\ lang r2 v)
  \/ (lang r1 [] /\ lang r2 (c :: s)).
Proof.
  intros H. apply lang_cat_inv in H. destruct H as (u & v & Heq & Hu & Hv).
  destruct u as [| c' u'].
  - simpl in Heq. subst v. now right.
  - simpl in Heq. injection Heq as -> ->. left. now exists u', v.
Qed.

Lemma deriv_lang (c : ascii) (r : regex) :
  forall s, lang (deriv c r) s <-> lang r (c :: s).
Proof.
  induction r as [| | p | r1 IH1 r2 IH2 | r1 IH1 r2 IH2 | r1 IH1];
    intros s; simpl.
  - split; intros H; now apply lang_void_inv in H.
  - split; intros H; [now apply lang_void_inv in H |].
    apply lang_eps_inv in H. discriminate.
  - destruct (p c) eqn:Hp; split; intros H.
    + apply lang_eps_inv in H. subst. now constructor.
    + apply lang_chr_inv in H. destruct H as (c' & Heq & _).
      injection Heq as Hc Hs. subst s. constructor.
    + now apply lang_void_inv in H.
    + apply lang_chr_inv in H. destruct H as (c' & Heq & Hc').
      injection Heq as Hc Hs. subst c'. congruence.
  - destruct (nullable r1) eqn:Hn; split; intros H.
    + apply lang_alt_inv in H. destruct H as [H | H].
      * apply lang_cat_inv in H. destruct H as (u & v & -> & Hu & Hv).
        apply lang_cat_cons; [now apply IH1 | assumption].
      * apply lang_cat_nil_l; [now apply nullable_lang | now apply IH2].
    + apply lang_cat_cons_inv in H.
      destruct H as [(u & v & -> & Hu & Hv) | [_ Hr]].
      * apply lang_alt_l. constructor; [now apply IH1 | assumption].
      * apply lang_alt_r. now apply IH2.
    + apply lang_cat_inv in H. destruct H as (u & v & -> & Hu & Hv).
      apply lang_cat_cons; [now apply IH1 | assumption].
    + apply lang_cat_cons_inv in H.
      destruct H as [(u & v & -> & Hu & Hv) | [Hnil _]].
      * constructor; [now apply IH1 | assumption].
      * apply nullable_lang in Hnil. congruence.
  - split; intros H; apply lang_alt_inv in H; destruct H as [H | H].
    + apply lang_alt_l. now apply IH1.
    + apply lang_alt_r. now apply IH2.
    + apply lang_alt_l. now apply IH1.
    + apply lang_alt_r. now apply IH2.
  - split; intros H.
    + apply lang_cat_inv in H. destruct H as (u & v & -> & Hu & Hv).
      change (c :: u ++ v) with ((c :: u) ++ v).
      constructor; [now apply IH1 | assumption].
    + destruct (lang_star_cons_inv _ _ H _ _ _ eq_refl eq_refl)
        as (u & v & -> & Hu & Hv).
      constructor; [now apply IH1 | assumption].
Qed.

Lemma matches_lang (s : str) : forall r, matches r s = true <-> lang r s.
Proof.
  induction s as [| c s IH]; intros r; simpl.
  - apply nullable_lang.
  - rewrite IH. apply deriv_lang.
Qed.

Lemma lang_star_chr (p : ascii -> bool) (w : str) :
  lang (Star (Chr p)) w <-> forallb p w = true.
Proof.
  split.
  - intros H. remember (Star (Chr p)) as r0 eqn:Hr.
    induction H as [| | | | | r' | r' u v Hu _ Hv IHv]; try discriminate.
    + reflexivity.
    + injection Hr as ->. apply lang_chr_inv in Hu.
      destruct Hu as (c & -> & Hc). simpl.
      rewrite Hc. now apply IHv.
  - induction w as [| c w IH]; simpl; intros H.
    + constructor.
    + apply andb_true_iff in H. destruct H as [Hc Hw].
      change (c :: w) with ([c] ++ w).
      constructor; [now constructor | now apply IH].
Qed.

Lemma lang_plus_chr (p : ascii -> bool) (w : str) :
  lang (Plus (Chr p)) w <-> w <> [] /\ forallb p w = true.
Proof.
  unfold Plus. split.
  - intros H. apply lang_cat_inv in H. destruct H as (u & v & -> & Hu & Hv).
    apply lang_chr_inv in Hu. destruct Hu as (c & -> & Hc).
    apply lang_star_chr in Hv. simpl.
    split; [discriminate | now rewrite Hc, Hv].
  - intros [Hne Hall]. destruct w as [| c w]; [congruence |].
    simpl in Hall. apply andb_true_iff in Hall. destruct Hall as [Hc Hw].
    change (c :: w) with ([c] ++ w).
    constructor; [now constructor | now apply lang_star_chr].
Qed.

(** The pattern of the amount code accepts exactly the numerals: digits,
    optionally followed by a point and digits. *)
Lemma matches_NUMERAL (s : str) :
  matches NUMERAL s = true <-> exists i f, Spec.numeral_shape s i f.
Proof.
  rewrite matches_lang. unfold NUMERAL, Opt. split.
  - intros H. apply lang_cat_inv in H. destruct H as (u & v & -> & Hu & Hv).
    apply lang_plus_chr in Hu.
    apply lang_alt_inv in Hv. destruct Hv as [Hv | Hv].
    + apply lang_eps_inv in Hv. subst v. rewrite app_nil_r.
      exists u, []. now constructor.
    + apply lang_cat_inv in Hv. destruct Hv as (d & f & -> & Hd & Hf).
      apply lang_chr_inv in Hd. destruct Hd as (c & -> & Hc).
      apply lang_plus_chr in Hf.
      unfold is_dot in Hc. apply Ascii.eqb_eq in Hc. subst c.
      exists u, f. now constructor.
  - intros (i & f & Hshape). destruct Hshape as [i Hi | i f Hi Hf].
    + rewrite <- (app_nil_r i).
      constructor; [now apply lang_plus_chr | apply lang_alt_l; constructor].
    + constructor; [now apply lang_plus_chr |].
      apply lang_alt_r. change ("."%char :: f) with (["."%char] ++ f).
      constructor; [now constructor | now apply lang_plus_chr].
Qed.

End RegexFacts.

(* ------------------------------------------------------------------ *)
(** ** Digits: characters, [split], [BigInt] and [toString]             *)
(* ------------------------------------------------------------------ *)

Section DigitFacts.
Import JS.
Open Scope Z_scope.

Lemma is_digit_val (c : ascii) :
  is_digit c = true -> 0 <= digit_val c <= 9.
Proof.
  unfold is_digit, digit_val. intros H.
  apply andb_true_iff in H. destruct H as [H1 H2].
  apply Nat.leb_le in H1. apply Nat.leb_le in H2. lia.
Qed.

Lemma digit_char_val (c : ascii) :
  is_digit c = true -> digit_char (digit_val c) = c.
Proof.
  unfold is_digit, digit_val, digit_char. intros H.
  apply andb_true_iff in H. destruct H as [H1 _]. apply Nat.leb_le in H1.
  replace (48 + Z.to_nat (Z.of_nat (nat_of_ascii c) - 48))%nat
    with (nat_of_ascii c) by lia.
  apply ascii_nat_embedding.
Qed.

Lemma is_zero_char_val (c : ascii) :
  is_digit c = true -> (is_zero_char c = true <-> digit_val c = 0).
Proof.
  intros Hd. unfold is_zero_char. rewrite Ascii.eqb_eq. split.
  - intros ->. reflexivity.
  - intros Hv. rewrite <- (digit_char_val c Hd), Hv. reflexivity.
Qed.

Lemma is_digit_not_dot (c : ascii) : is_digit c = true -> is_dot c = false.
Proof.
  intros Hd. unfold is_dot. destruct (Ascii.eqb_spec c "."%char) as [-> |].
  - discriminate Hd.
  - reflexivity.
Qed.

(** *** [split] on numerals *)

Lemma split_digits (i : str) :
  forallb is_digit i = true -> split "." i = [i].
Proof.
  induction i as [| c i IH]; simpl; intros H; [reflexivity |].
  apply andb_true_iff in H. destruct H as [Hc Hi].
  apply is_digit_not_dot in Hc. unfold is_dot in Hc. rewrite Hc.
  now rewrite IH.
Qed.

Lemma split_digits_dot (i rest : str) :
  forallb is_digit i = true ->
  split "." (i ++ "."%char :: rest) = i :: split "." rest.
Proof.
  induction i as [| c i IH]; simpl; intros H; [reflexivity |].
  apply andb_true_iff in H. destruct H as [Hc Hi].
  apply is_digit_not_dot in Hc. unfold is_dot in Hc. rewrite Hc.
  now rewrite IH.
Qed.

Lemma shape_parts (s i f : str) :
  Spec.numeral_shape s i f ->
  Amount.integer_of s = i /\ Amount.fraction_of s = f.
Proof.
  unfold Amount.integer_of, Amount.fraction_of.
  intros [i' [_ Hi] | i' f' [_ Hi] [_ Hf]].
  - now rewrite split_digits.
  - rewrite split_digits_dot, split_digits by assumption. now split.
Qed.

Lemma shape_fraction_digits (s i f : str) :
  Spec.numeral_shape s i f -> forallb is_digit f = true.
Proof. intros [i' _ | i' f' _ [_ Hf]]; [reflexivity | assumption]. Qed.

Lemma shape_integer_digits (s i f : str) :
  Spec.numeral_shape s i f -> Spec.digits i.
Proof. now intros [i' Hi | i' f' Hi _]. Qed.

Lemma shape_unique (s i1 f1 i2 f2 : str) :
  Spec.numeral_shape s i1 f1 -> Spec.numeral_shape s i2 f2 ->
  i1 = i2 /\ f1 = f2.
Proof.
  intros H1 H2. apply shape_parts in H1, H2.
  destruct H1 as [<- <-], H2 as [<- <-]. now split.
Qed.

(** *** Values of digit strings *)

Lemma forallb_repeat_zero (k : nat) :
  forallb is_digit (repeat "0"%char k) = true.
Proof. induction k; simpl; auto. Qed.

Lemma fold_digits_acc (s : str) : forall acc,
  fold_left (fun a c => 10 * a + digit_val c) s acc
  = acc * 10 ^ Z.of_nat (length s) + parse_digits s.
Proof.
  unfold parse_digits.
  induction s as [| c s IH]; intros acc.
  - simpl. lia.
  - cbn [fold_left length]. rewrite IH, (IH (10 * 0 + digit_val c)).
    rewrite Nat2Z.inj_succ, Z.pow_succ_r by lia. ring.
Qed.

Lemma parse_digits_app (a b : str) :
  parse_digits (a ++ b)
  = parse_digits a * 10 ^ Z.of_nat (length b) + parse_digits b.
Proof.
  unfold parse_digits at 1. rewrite fold_left_app.
  fold (parse_digits a). apply fold_digits_acc.
Qed.

Lemma parse_digits_snoc (a : str) (c : ascii) :
  parse_digits (a ++ [c]) = 10 * parse_digits a + digit_val c.
Proof.
  unfold parse_digits. rewrite fold_left_app. reflexivity.
Qed.

Lemma parse_digits_bounds (s : str) :
  forallb is_digit s = true ->
  0 <= parse_digits s < 10 ^ Z.of_nat (length s).
Proof.
  induction s as [| c s IH] using rev_ind; intros H.
  - simpl. unfold parse_digits. simpl. lia.
  - rewrite forallb_app in H. apply andb_true_iff in H.
    destruct H as [Hs Hc]. simpl in Hc. rewrite andb_true_r in Hc.
    apply is_digit_val in Hc. specialize (IH Hs).
    rewrite parse_digits_snoc, length_app. simpl length.
    replace (Z.of_nat (length s + 1)) with (Z.succ (Z.of_nat (length s)))
      by lia.
    rewrite Z.pow_succ_r by lia. lia.
Qed.

Lemma parse_digits_zeros (k : nat) : parse_digits (repeat "0"%char k) = 0.
Proof.
  induction k as [| k IH].
  - reflexivity.
  - change (repeat "0"%char (S k)) with (["0"%char] ++ repeat "0"%char k).
    rewrite parse_digits_app, IH. reflexivity.
Qed.

(** *** Leading zeros *)

Lemma drop_zeros_app_nil (a b : str) :
  drop_zeros a = [] -> drop_zeros (a ++ b) = drop_zeros b.
Proof.
  induction a as [| c a IH]; simpl; [reflexivity |].
  destruct (is_zero_char c); [assumption | discriminate].
Qed.

Lemma drop_zeros_app_cons (a b : str) :
  drop_zeros a <> [] -> drop_zeros (a ++ b) = drop_zeros a ++ b.
Proof.
  induction a as [| c a IH]; simpl; [congruence |].
  destruct (is_zero_char c); [assumption | reflexivity].
Qed.

Lemma drop_zeros_repeat (s : str) :
  s = repeat "0"%char (length s - length (drop_zeros s)) ++ drop_zeros s.
Proof.
  induction s as [| c s IH]; [reflexivity |].
  simpl drop_zeros. destruct (is_zero_char c) eqn:Hc.
  - unfold is_zero_char in Hc. apply Ascii.eqb_eq in Hc. subst c.
    assert (Hle : (length (drop_zeros s) <= length s)%nat).
    { rewrite IH at 2. rewrite length_app. lia. }
    simpl length.
    replace (S (length s) - length (drop_zeros s))%nat
      with (S (length s - length (drop_zeros s))) by lia.
    simpl. now rewrite <- IH.
  - now rewrite Nat.sub_diag.
Qed.

Lemma drop_zeros_length (s : str) : (length (drop_zeros s) <= length s)%nat.
Proof.
  rewrite (drop_zeros_repeat s) at 2. rewrite length_app. lia.
Qed.

Lemma repeat_snoc (c : ascii) (k : nat) :
  repeat c k ++ [c] = c :: repeat c k.
Proof. induction k as [| k IH]; simpl; [reflexivity | now rewrite IH]. Qed.

End DigitFacts.

(* ------------------------------------------------------------------ *)
(** ** [toString] of a bigint inverts [BigInt] on digit strings         *)
(* ------------------------------------------------------------------ *)

Section ToStringFacts.
Import JS.
Open Scope Z_scope.

Lemma digits_fuel_acc (fuel : nat) : forall n acc,
  digits_fuel fuel n acc = digits_fuel fuel n [] ++ acc.
Proof.
  induction fuel as [| f IH]; intros n acc; cbn [digits_fuel].
  - reflexivity.
  - destruct (n <? 10); [reflexivity |].
    rewrite IH, (IH _ [digit_char (n mod 10)]), <- app_assoc. reflexivity.
Qed.

Lemma digits_fuel_small (fuel : nat) (n : Z) :
  0 <= n < 10 -> digits_fuel fuel n [] = [digit_char n].
Proof.
  intros Hn. rewrite <- (Z.mod_small n 10) at 2 by lia.
  destruct fuel; cbn [digits_fuel]; [reflexivity |].
  destruct (Z.ltb_spec n 10); [reflexivity | lia].
Qed.

(** Past the point where the digits are exhausted, fuel does not matter. *)
Lemma digits_fuel_enough (f1 : nat) : forall f2 n,
  0 <= n ->
  n < 10 ^ Z.of_nat (S f1) -> n < 10 ^ Z.of_nat (S f2) ->
  digits_fuel f1 n [] = digits_fuel f2 n [].
Proof.
  induction f1 as [| f1 IH]; intros f2 n H0 H1 H2.
  - change (10 ^ Z.of_nat 1) with 10 in H1.
    now rewrite !digits_fuel_small by lia.
  - destruct (Z.ltb_spec n 10) as [Hlt | Hge].
    + now rewrite !digits_fuel_small by lia.
    + destruct f2 as [| f2].
      * change (10 ^ Z.of_nat 1) with 10 in H2. lia.
      * cbn [digits_fuel].
        destruct (Z.ltb_spec n 10); [lia |].
        rewrite digits_fuel_acc, (digits_fuel_acc f2). f_equal.
        rewrite Nat2Z.inj_succ, Z.pow_succ_r in H1, H2 by lia.
        apply IH.
        -- apply Z.div_pos; lia.
        -- apply Z.div_lt_upper_bound; lia.
        -- apply Z.div_lt_upper_bound; lia.
Qed.

Lemma log2_fuel_enough (n : Z) :
  0 <= n -> n < 10 ^ Z.of_nat (S (Z.to_nat (Z.log2 n))).
Proof.
  intros Hn. destruct (Z.eq_dec n 0) as [-> | Hne].
  - reflexivity.
  - pose proof (Z.log2_nonneg n) as Hlog.
    destruct (Z.log2_spec n) as [_ Hup]; [lia |].
    rewrite Nat2Z.inj_succ, Z2Nat.id by assumption.
    eapply Z.lt_le_trans; [exact Hup |].
    apply Z.pow_le_mono_l. lia.
Qed.

Lemma digits_of_small (d : Z) : 0 <= d < 10 -> digits_of d = [digit_char d].
Proof. intros Hd. unfold digits_of. now apply digits_fuel_small. Qed.

Lemma digits_of_step (n d : Z) :
  0 < n -> 0 <= d < 10 ->
  digits_of (10 * n + d) = digits_of n ++ [digit_char d].
Proof.
  intros Hn Hd. unfold digits_of.
  set (v := 10 * n + d).
  assert (Hv : 10 <= v) by (unfold v; lia).
  assert (Hdiv : v / 10 = n).
  { unfold v. rewrite Z.mul_comm, Z.div_add_l by lia.
    rewrite Z.div_small by lia. lia. }
  assert (Hmod : v mod 10 = d).
  { unfold v. rewrite Z.add_comm, Z.mul_comm, Z.mod_add by lia.
    now apply Z.mod_small. }
  pose proof (log2_fuel_enough v ltac:(lia)) as Hfuel.
  destruct (Z.to_nat (Z.log2 v)) as [| f] eqn:Hf.
  - change (10 ^ Z.of_nat 1) with 10 in Hfuel. lia.
  - cbn [digits_fuel]. destruct (Z.ltb_spec v 10); [lia |].
    rewrite Hdiv, Hmod, digits_fuel_acc. f_equal.
    apply digits_fuel_enough; [lia | | apply log2_fuel_enough; lia].
    rewrite Nat2Z.inj_succ, Z.pow_succ_r in Hfuel by lia.
    unfold v in Hfuel. lia.
Qed.

Lemma digits_of_nonempty (n : Z) : digits_of n <> [].
Proof.
  unfold digits_of. destruct (Z.to_nat (Z.log2 n)); cbn [digits_fuel].
  - discriminate.
  - destruct (n <? 10); [discriminate |].
    rewrite digits_fuel_acc. intros H. apply app_eq_nil in H.
    destruct H; discriminate.
Qed.

(** Printing the value of a digit string gives the string without its
    leading zeros. *)
Lemma digits_of_parse (s : str) :
  forallb is_digit s = true ->
  (parse_digits s = 0 -> drop_zeros s = [])
  /\ (0 < parse_digits s -> digits_of (parse_digits s) = drop_zeros s).
Proof.
  induction s as [| c s IH] using rev_ind; intros H.
  - split; [reflexivity |]. unfold parse_digits. simpl. lia.
  - rewrite forallb_app in H. apply andb_true_iff in H.
    destruct H as [Hs Hc]. simpl in Hc. rewrite andb_true_r in Hc.
    destruct (IH Hs) as [IH0 IHpos].
    pose proof (is_digit_val c Hc) as Hval.
    pose proof (parse_digits_bounds s Hs) as Hb.
    rewrite parse_digits_snoc. split.
    + intros Hz.
      rewrite drop_zeros_app_nil by (apply IH0; lia).
      simpl. replace (is_zero_char c) with true; [reflexivity |].
      symmetry. apply is_zero_char_val; [assumption | lia].
    + intros Hpos. destruct (Z.eq_dec (parse_digits s) 0) as [Hz | Hnz].
      * rewrite Hz, drop_zeros_app_nil by (now apply IH0).
        rewrite Z.mul_0_r, Z.add_0_l, digits_of_small by lia.
        rewrite digit_char_val by assumption. simpl.
        destruct (is_zero_char c) eqn:Hzc; [| reflexivity].
        apply is_zero_char_val in Hzc; [lia | assumption].
      * rewrite digits_of_step by lia.
        rewrite digit_char_val, IHpos by (assumption || lia).
        rewrite drop_zeros_app_cons; [reflexivity |].
        rewrite <- IHpos by lia. apply digits_of_nonempty.
Qed.

Lemma toString_parse (s : str) :
  forallb is_digit s = true ->
  BigInt_toString (parse_digits s) = Spec.strip_leading_zeros s.
Proof.
  intros H. pose proof (parse_digits_bounds s H) as Hb.
  destruct (digits_of_parse s H) as [H0 Hpos].
  unfold BigInt_toString, Spec.strip_leading_zeros.
  destruct (Z.ltb_spec (parse_digits s) 0); [lia |].
  destruct (Z.eq_dec (parse_digits s) 0) as [Hz | Hnz].
  - rewrite Hz, H0 by assumption. reflexivity.
  - rewrite Hpos by lia. pose proof (digits_of_nonempty (parse_digits s)) as Hne.
    rewrite Hpos in Hne by lia. destruct (drop_zeros s); congruence.
Qed.

Lemma BigInt_digits (s : str) :
  forallb is_digit s = true -> BigInt s = Some (parse_digits s).
Proof. unfold BigInt. now intros ->. Qed.

End ToStringFacts.

(* ------------------------------------------------------------------ *)
(** ** [fromUnit] and [toUnit]                                          *)
(* ------------------------------------------------------------------ *)

Section UnitFacts.
Import JS.

Lemma padEnd_length (s : str) (n : nat) (c : ascii) :
  (length s <= n)%nat -> length (padEnd s n c) = n.
Proof. intros H. unfold padEnd. rewrite length_app, repeat_length. lia. Qed.

Lemma padEnd_digits (f : str) (n : nat) :
  forallb is_digit f = true -> forallb is_digit (padEnd f n "0") = true.
Proof.
  intros H. unfold padEnd. now rewrite forallb_app, H, forallb_repeat_zero.
Qed.

Lemma fromUnit_invalid (s : str) (d : nat) (sym : option str) :
  matches NUMERAL s = false ->
  Amount.fromUnit (Amount.InString s) d sym
  = Throws (Amount.InvalidUnitAmount s).
Proof. intros H. unfold Amount.fromUnit. simpl. now rewrite H. Qed.

Lemma fromUnit_overflow (s i f : str) (d : nat) (sym : option str) :
  Spec.numeral_shape s i f -> (d < length f)%nat ->
  Amount.fromUnit (Amount.InString s) d sym
  = Throws (Amount.PrecisionOverflow s d).
Proof.
  intros Hs Hlen. unfold Amount.fromUnit. simpl.
  replace (matches NUMERAL s) with true
    by (symmetry; apply matches_NUMERAL; eauto).
  destruct (shape_parts s i f Hs) as [_ ->]. simpl.
  destruct (Nat.ltb_spec d (length f)); [reflexivity | lia].
Qed.

Lemma fromUnit_accepts (s i f : str) (d : nat) (sym : option str) :
  Spec.numeral_shape s i f -> (length f <= d)%nat ->
  Amount.fromUnit (Amount.InString s) d sym
  = Returns (Amount.mk (parse_digits (i ++ padEnd f d "0")) d sym).
Proof.
  intros Hs Hlen. unfold Amount.fromUnit. simpl.
  replace (matches NUMERAL s) with true
    by (symmetry; apply matches_NUMERAL; eauto).
  destruct (shape_parts s i f Hs) as [-> ->]. simpl.
  destruct (Nat.ltb_spec d (length f)); [lia |].
  unfold Amount.toBigInt. rewrite BigInt_digits; [reflexivity |].
  rewrite forallb_app, padEnd_digits.
  - destruct (shape_integer_digits s i f Hs) as [_ ->]. reflexivity.
  - exact (shape_fraction_digits s i f Hs).
Qed.

(** *** Padding and slicing in [toUnit] *)

Lemma padStart_strip (i fp : str) :
  i <> [] ->
  padStart (Spec.strip_leading_zeros (i ++ fp)) (length fp + 1) "0"
  = Spec.strip_leading_zeros i ++ fp.
Proof.
  intros Hi. unfold Spec.strip_leading_zeros, padStart.
  destruct (drop_zeros i) as [| c r] eqn:Hdz.
  - rewrite drop_zeros_app_nil by assumption.
    pose proof (drop_zeros_repeat fp) as Hrep.
    pose proof (drop_zeros_length fp) as Hle.
    destruct (drop_zeros fp) as [| c' r'] eqn:Hfp.
    + simpl length in *. rewrite app_nil_r, Nat.sub_0_r in Hrep.
      replace (length fp + 1 - 1)%nat with (length fp) by lia.
      rewrite repeat_snoc. simpl. now rewrite <- Hrep.
    + replace (length fp + 1 - length (c' :: r'))%nat
        with (S (length fp - length (c' :: r'))) by lia.
      cbn [repeat app]. f_equal. symmetry. exact Hrep.
  - rewrite drop_zeros_app_cons by (rewrite Hdz; discriminate).
    rewrite Hdz. cbn [app].
    replace (length fp + 1 - length (c :: r ++ fp))%nat with O
      by (simpl; rewrite length_app; lia).
    reflexivity.
Qed.

Lemma slice_integer_window (x fp : str) :
  fp <> [] ->
  slice (x ++ fp) 0 (- Z.of_nat (length fp)) = x.
Proof.
  intros Hne. unfold slice, rel_index. rewrite length_app.
  assert (0 < length fp)%nat by (destruct fp; [congruence | simpl; lia]).
  destruct (Z.ltb_spec 0 0); [lia |].
  destruct (Z.ltb_spec (- Z.of_nat (length fp)) 0); [| lia].
  simpl Nat.min. simpl skipn.
  replace (Z.to_nat (Z.max (Z.of_nat (length x + length fp)
                              + - Z.of_nat (length fp)) 0) - 0)%nat
    with (length x) by lia.
  rewrite firstn_app, firstn_all, Nat.sub_diag. simpl. apply app_nil_r.
Qed.

Lemma slice_fraction_window (x fp : str) :
  fp <> [] ->
  slice_from (x ++ fp) (- Z.of_nat (length fp)) = fp.
Proof.
  intros Hne. unfold slice_from, rel_index. rewrite length_app.
  assert (0 < length fp)%nat by (destruct fp; [congruence | simpl; lia]).
  destruct (Z.ltb_spec (- Z.of_nat (length fp)) 0); [| lia].
  replace (Z.to_nat (Z.max (Z.of_nat (length x + length fp)
                              + - Z.of_nat (length fp)) 0))
    with (length x) by lia.
  rewrite skipn_app, skipn_all, Nat.sub_diag. reflexivity.
Qed.

(** [toUnit] of the value of a digit string [i ++ fp] whose last
    [decimals] digits are [fp]. *)
Lemma toUnit_digits (i fp : str) (sym : option str) :
  Spec.digits i -> forallb is_digit fp = true ->
  Amount.toUnit (Amount.mk (parse_digits (i ++ fp)) (length fp) sym)
  = match replace_trailing_zeros fp with
    | [] => Spec.strip_leading_zeros i
    | c :: cf => Spec.strip_leading_zeros i ++ "."%char :: c :: cf
    end.
Proof.
  intros [Hne Hi] Hfp. unfold Amount.toUnit. simpl.
  assert (Hall : forallb is_digit (i ++ fp) = true)
    by now rewrite forallb_app, Hi, Hfp.
  rewrite toString_parse by assumption.
  destruct fp as [| c0 fp0] eqn:Efp.
  - simpl. now rewrite app_nil_r.
  - rewrite <- Efp in *.
    assert (Hfpne : fp <> []) by (rewrite Efp; discriminate).
    destruct (Nat.eqb_spec (length fp) 0) as [H0 | _].
    { rewrite Efp in H0. discriminate. }
    rewrite padStart_strip by assumption.
    rewrite slice_integer_window, slice_fraction_window by assumption.
    destruct (replace_trailing_zeros fp); reflexivity.
Qed.

(** *** Trailing zeros *)

Lemma rev_repeat_zero (k : nat) :
  rev (repeat "0"%char k) = repeat "0"%char k.
Proof.
  induction k as [| k IH]; [reflexivity |].
  simpl. rewrite IH. apply repeat_snoc.
Qed.

Lemma drop_zeros_zeros (k : nat) (s : str) :
  drop_zeros (repeat "0"%char k ++ s) = drop_zeros s.
Proof. induction k as [| k IH]; simpl; auto. Qed.

Lemma replace_trailing_zeros_pad (f : str) (k : nat) :
  replace_trailing_zeros (f ++ repeat "0"%char k) = replace_trailing_zeros f.
Proof.
  unfold replace_trailing_zeros.
  now rewrite rev_app_distr, rev_repeat_zero, drop_zeros_zeros.
Qed.

Lemma drop_zeros_head (s : str) (c : ascii) (r : str) :
  drop_zeros s = c :: r -> is_zero_char c = false /\ In c s.
Proof.
  induction s as [| a s IH]; simpl; [discriminate |].
  destruct (is_zero_char a) eqn:Ha.
  - intros H. destruct (IH H) as [Hc Hin]. split; [assumption | now right].
  - intros H. injection H as -> _. split; [assumption | now left].
Qed.

(** *** The normal form of the specification on a numeral *)

Lemma existsb_dot_digits (i : str) :
  forallb is_digit i = true -> existsb is_dot i = false.
Proof.
  induction i as [| c i IH]; simpl; intros H; [reflexivity |].
  apply andb_true_iff in H. destruct H as [Hc Hi].
  now rewrite is_digit_not_dot, IH.
Qed.

Lemma normalize_unit_shape (s i f : str) :
  Spec.numeral_shape s i f ->
  Spec.normalize_unit s
  = match replace_trailing_zeros f with
    | [] => i
    | c :: cf => i ++ "."%char :: c :: cf
    end.
Proof.
  intros [i' [_ Hi] | i' f' [_ Hi] [_ Hf]]; unfold Spec.normalize_unit.
  - now rewrite existsb_dot_digits.
  - rewrite existsb_app. simpl. rewrite orb_true_r.
    unfold replace_trailing_zeros.
    rewrite rev_app_distr. simpl rev. rewrite <- app_assoc. simpl app.
    destruct (drop_zeros (rev f')) as [| c r] eqn:Hdz.
    + rewrite drop_zeros_app_nil by assumption. simpl.
      unfold Spec.drop_trailing_point.
      rewrite rev_app_distr. simpl. now rewrite !rev_involutive.
    + rewrite drop_zeros_app_cons by (rewrite Hdz; discriminate).
      rewrite Hdz. unfold Spec.drop_trailing_point.
      rewrite rev_involutive. simpl app.
      destruct (drop_zeros_head _ _ _ Hdz) as [_ Hin].
      apply in_rev in Hin.
      rewrite forallb_forall in Hf. apply Hf in Hin.
      rewrite (is_digit_not_dot c Hin).
      simpl rev. rewrite rev_app_distr. simpl rev.
      rewrite rev_involutive, <- !app_assoc. simpl. 
      destruct (rev r ++ [c]) eqn:E.
      * apply app_eq_nil in E. destruct E; discriminate.
      * reflexivity.
Qed.

Lemma drop_redundant_zeros_integer (i rest : str) :
  Spec.digits i ->
  match rest with [] => True | c :: _ => is_digit c = false end ->
  Spec.drop_redundant_zeros (i ++ rest) = Spec.strip_leading_zeros i ++ rest.
Proof.
  intros [Hne Hi] Hrest. unfold Spec.strip_leading_zeros.
  induction i as [| c i IH]; [congruence |].
  simpl in Hi. apply andb_true_iff in Hi. destruct Hi as [Hc Hi].
  destruct i as [| c2 i'].
  - simpl app. simpl drop_zeros.
    destruct rest as [| a rest']; simpl.
    + destruct (is_zero_char c) eqn:Hz; [| reflexivity].
      unfold is_zero_char in Hz. apply Ascii.eqb_eq in Hz. now subst.
    + rewrite Hrest, andb_false_r.
      destruct (is_zero_char c) eqn:Hz; [| reflexivity].
      unfold is_zero_char in Hz. apply Ascii.eqb_eq in Hz. now subst.
  - assert (Hc2 : is_digit c2 = true).
    { simpl in Hi. now apply andb_true_iff in Hi. }
    change ((c :: c2 :: i') ++ rest) with (c :: (c2 :: i') ++ rest).
    change (Spec.drop_redundant_zeros (c :: (c2 :: i') ++ rest))
      with (if is_zero_char c && is_digit c2
            then Spec.drop_redundant_zeros ((c2 :: i') ++ rest)
            else c :: (c2 :: i') ++ rest).
    rewrite Hc2, andb_true_r.
    change (drop_zeros (c :: c2 :: i'))
      with (if is_zero_char c then drop_zeros (c2 :: i') else c :: c2 :: i').
    destruct (is_zero_char c).
    + apply IH; [discriminate | assumption].
    + reflexivity.
Qed.

End UnitFacts.

(* ------------------------------------------------------------------ *)
(** ** Claims on [fromUnit] and [toUnit]                                *)
(* ------------------------------------------------------------------ *)

Section UnitClaims.
Import JS.

Lemma shape_of_string_ex1 :
  Spec.numeral_shape (lit "4.0") (lit "4") (lit "0").
Proof.
  apply (Spec.shape_fraction (lit "4") (lit "0"));
    (split; [discriminate | reflexivity]).
Qed.

(** C1 (as amended).  For every numeral [s] of the grammar
    [^\d+(\.\d+)?$] with at most [decimals] fractional digits,
    [fromUnit(s, decimals)] succeeds and its [toUnit()] is [s] without its
    trailing fractional zeros, without a bare trailing decimal point, and
    without the leading zeros of its integer part that a digit follows.
    When the integer part has no such leading zero, this is the round trip
    as first stated. *)
Theorem fromUnit_toUnit_roundtrip (s i f : str) (d : nat) (sym : option str) :
  Spec.numeral_shape s i f -> (length f <= d)%nat ->
  Amount.toUnit_of (Amount.fromUnit (Amount.InString s) d sym)
  = Returns (Spec.drop_redundant_zeros (Spec.normalize_unit s))
  /\ (Spec.strip_leading_zeros i = i ->
      Amount.toUnit_of (Amount.fromUnit (Amount.InString s) d sym)
      = Returns (Spec.normalize_unit s)).
Proof.
  intros Hs Hlen.
  pose proof (shape_integer_digits s i f Hs) as Hi.
  pose proof (shape_fraction_digits s i f Hs) as Hf.
  assert (Hnorm : Spec.drop_redundant_zeros (Spec.normalize_unit s)
                  = match replace_trailing_zeros f with
                    | [] => Spec.strip_leading_zeros i
                    | c :: cf =>
                        Spec.strip_leading_zeros i ++ "."%char :: c :: cf
                    end).
  { rewrite (normalize_unit_shape s i f Hs).
    destruct (replace_trailing_zeros f) as [| c cf].
    - rewrite <- (app_nil_r i) at 1.
      rewrite drop_redundant_zeros_integer by (assumption || exact I).
      apply app_nil_r.
    - now rewrite drop_redundant_zeros_integer
        by (assumption || reflexivity). }
  assert (Hmain :
    Amount.toUnit_of (Amount.fromUnit (Amount.InString s) d sym)
    = Returns (Spec.drop_redundant_zeros (Spec.normalize_unit s))).
  { rewrite (fromUnit_accepts s i f d sym Hs Hlen), Hnorm.
    unfold Amount.toUnit_of, Amount.bind. f_equal.
    rewrite <- (padEnd_length f d "0" Hlen) at 2.
    rewrite toUnit_digits by (assumption || now apply padEnd_digits).
    unfold padEnd. now rewrite replace_trailing_zeros_pad. }
  split; [exact Hmain |].
  intros Hcanon. rewrite Hmain, Hnorm, Hcanon. f_equal.
  rewrite (normalize_unit_shape s i f Hs).
  now destruct (replace_trailing_zeros f).
Qed.

Lemma fromUnit_toUnit_roundtrip_witness :
  Spec.numeral_shape (lit "4.0") (lit "4") (lit "0")
  /\ (length (lit "0") <= 18)%nat
  /\ Amount.toUnit_of (Amount.fromUnit (Amount.InString (lit "4.0")) 18 None)
     = Returns (lit "4").
Proof.
  split; [exact shape_of_string_ex1 |].
  split; [simpl; lia |].
  apply (fromUnit_toUnit_roundtrip (lit "4.0") (lit "4") (lit "0") 18 None).
  - exact shape_of_string_ex1.
  - simpl; lia.
  - reflexivity.
Defined.

(** C1, the counterexample: ["01.5"] is a numeral of the grammar with one
    fractional digit, yet [fromUnit("01.5", 1).toUnit()] is ["1.5"], which
    is not ["01.5"] with its trailing fractional zeros removed. *)
Lemma roundtrip_fails_on_leading_zero :
  matches NUMERAL (lit "01.5") = true
  /\ Spec.numeral_shape (lit "01.5") (lit "01") (lit "5")
  /\ (length (lit "5") <= 1)%nat
  /\ Amount.toUnit_of (Amount.fromUnit (Amount.InString (lit "01.5")) 1 None)
     = Returns (lit "1.5")
  /\ Spec.normalize_unit (lit "01.5") = lit "01.5"
  /\ Amount.toUnit_of (Amount.fromUnit (Amount.InString (lit "01.5")) 1 None)
     <> Returns (Spec.normalize_unit (lit "01.5")).
Proof.
  split; [reflexivity |].
  split.
  { apply (Spec.shape_fraction (lit "01") (lit "5"));
      (split; [discriminate | reflexivity]). }
  split; [simpl; lia |].
  split; [vm_compute; reflexivity |].
  split; [vm_compute; reflexivity |].
  vm_compute. discriminate.
Qed.

(** C3 (as amended).  [fromUnit] throws exactly when the string fails the
    grammar or has more than [decimals] fractional digits; on success the
    base value is the integer digits followed by the fractional digits
    right-padded to exactly [decimals] places.  So ["-1"], ["1e21"] and
    ["abc"] are rejected, [fromUnit("1.234", 2, "X")] fails, and
    [fromUnit("1.23", 2, "X")] and [fromUnit("1.2", 2, "X")] succeed with
    base values 123 and 120. *)
Theorem fromUnit_throws_iff (s : str) (d : nat) (sym : option str) :
  (returned (Amount.fromUnit (Amount.InString s) d sym) = false
   <-> matches NUMERAL s = false
       \/ exists i f, Spec.numeral_shape s i f /\ (d < length f)%nat)
  /\ (forall a, Amount.fromUnit (Amount.InString s) d sym = Returns a ->
      exists i f,
        Spec.numeral_shape s i f
        /\ length (padEnd f d "0") = d
        /\ a = Amount.mk (parse_digits (i ++ padEnd f d "0")) d sym
        /\ Amount.toBase a
           = (parse_digits i * 10 ^ Z.of_nat d
              + parse_digits f * 10 ^ Z.of_nat (d - length f))%Z)
  /\ (Amount.fromUnit (Amount.InString (lit "-1")) d sym
      = Throws (Amount.InvalidUnitAmount (lit "-1"))
      /\ Amount.fromUnit (Amount.InString (lit "1e21")) d sym
         = Throws (Amount.InvalidUnitAmount (lit "1e21"))
      /\ Amount.fromUnit (Amount.InString (lit "abc")) d sym
         = Throws (Amount.InvalidUnitAmount (lit "abc")))
  /\ (Amount.fromUnit (Amount.InString (lit "1.234")) 2 (Some (lit "X"))
      = Throws (Amount.PrecisionOverflow (lit "1.234") 2)
      /\ Amount.fromUnit (Amount.InString (lit "1.23")) 2 (Some (lit "X"))
         = Returns (Amount.mk 123 2 (Some (lit "X")))
      /\ Amount.fromUnit (Amount.InString (lit "1.2")) 2 (Some (lit "X"))
         = Returns (Amount.mk 120 2 (Some (lit "X")))).
Proof.
  assert (Hcases :
    matches NUMERAL s = false
    \/ (exists i f, Spec.numeral_shape s i f /\ (d < length f)%nat)
    \/ (exists i f, Spec.numeral_shape s i f /\ (length f <= d)%nat)).
  { destruct (matches NUMERAL s) eqn:Hm; [right | now left].
    apply matches_NUMERAL in Hm. destruct Hm as (i & f & Hs).
    destruct (Nat.lt_ge_cases d (length f)); [left | right]; eauto. }
  split; [| split; [| split]].
  - destruct Hcases as [Hm | [(i & f & Hs & Hlen) | (i & f & Hs & Hlen)]].
    + rewrite fromUnit_invalid by assumption. simpl. tauto.
    + rewrite (fromUnit_overflow s i f d sym Hs Hlen). simpl.
      split; [intros _; right; eauto | reflexivity].
    + rewrite (fromUnit_accepts s i f d sym Hs Hlen). simpl.
      split; [discriminate |].
      intros [Hm | (i' & f' & Hs' & Hlen')].
      * assert (matches NUMERAL s = true) by (apply matches_NUMERAL; eauto).
        congruence.
      * destruct (shape_unique s i f i' f' Hs Hs') as [_ <-]. lia.
  - intros a Ha.
    destruct Hcases as [Hm | [(i & f & Hs & Hlen) | (i & f & Hs & Hlen)]].
    + rewrite fromUnit_invalid in Ha by assumption. discriminate.
    + rewrite (fromUnit_overflow s i f d sym Hs Hlen) in Ha. discriminate.
    + rewrite (fromUnit_accepts s i f d sym Hs Hlen) in Ha.
      injection Ha as <-. exists i, f.
      split; [assumption |]. split; [now apply padEnd_length |].
      split; [reflexivity |].
      unfold Amount.toBase. simpl.
      rewrite parse_digits_app, padEnd_length by assumption.
      unfold padEnd. rewrite parse_digits_app, parse_digits_zeros.
      rewrite repeat_length. ring.
  - repeat split; now apply fromUnit_invalid.
  - repeat split; vm_compute; reflexivity.
Qed.

(** C3, the counterexample: ["1.23"] has two fractional digits, which two
    decimals hold, so [fromUnit("1.23", 2, "X")] does not fail. *)
Lemma fromUnit_two_digits_two_decimals :
  Amount.fromUnit (Amount.InString (lit "1.23")) 2 (Some (lit "X"))
  = Returns (Amount.mk 123 2 (Some (lit "X")))
  /\ returned (Amount.fromUnit (Amount.InString (lit "1.23")) 2
                 (Some (lit "X"))) <> false.
Proof. split; [vm_compute; reflexivity | vm_compute; discriminate]. Qed.

End UnitClaims.

(* ------------------------------------------------------------------ *)
(** ** Scalars: [multiply] and [divide]                                 *)
(* ------------------------------------------------------------------ *)

Section ScalarFacts.
Import JS.
Open Scope Z_scope.

(** The digits [multiply] and [divide] hand to [BigInt]. *)
Lemma slice_prefix (x : str) (n : nat) :
  slice x 0 (Z.of_nat n) = firstn n x.
Proof.
  unfold slice, rel_index.
  destruct (Z.ltb_spec 0 0); [lia |].
  destruct (Z.ltb_spec (Z.of_nat n) 0); [lia |].
  rewrite Nat2Z.id. simpl Nat.min. simpl skipn. rewrite Nat.sub_0_r.
  destruct (Nat.le_ge_cases n (length x)) as [Hle | Hge].
  - now rewrite Nat.min_l.
  - rewrite Nat.min_r by assumption.
    now rewrite firstn_all, firstn_all2.
Qed.

Lemma pow10_pos (k : nat) : 0 < 10 ^ Z.of_nat k.
Proof. apply Z.pow_pos_nonneg; lia. Qed.

Lemma pow10_split (a b : nat) :
  10 ^ Z.of_nat (a + b) = 10 ^ Z.of_nat a * 10 ^ Z.of_nat b.
Proof. rewrite Nat2Z.inj_add. apply Z.pow_add_r; lia. Qed.

Lemma scaled18_integer_form (i f : str) :
  Spec.scaled18 i f
  = (parse_digits (i ++ f) * 10 ^ 18) / 10 ^ Z.of_nat (length f).
Proof.
  unfold Spec.scaled18, Spec.numeral_value, Qfloor, Qmult, inject_Z.
  cbn [Qnum Qden]. rewrite Pos.mul_1_r, Z2Pos.id by apply pow10_pos.
  reflexivity.
Qed.

(** Keeping the first 18 fractional digits, zero-filled, is scaling by
    [10^18] and flooring. *)
Lemma scaled_digits (i f : str) :
  forallb is_digit f = true ->
  parse_digits (i ++ firstn 18 (padEnd f 18 "0")) = Spec.scaled18 i f.
Proof.
  intros Hf. rewrite scaled18_integer_form.
  change (10 ^ 18) with (10 ^ Z.of_nat 18).
  destruct (Nat.le_ge_cases (length f) 18) as [Hle | Hge].
  - rewrite firstn_all2 by (rewrite padEnd_length; lia).
    unfold padEnd. rewrite app_assoc, parse_digits_app, parse_digits_zeros.
    rewrite repeat_length, Z.add_0_r.
    replace 18%nat with ((18 - length f) + length f)%nat at 2 by lia.
    rewrite pow10_split, Z.mul_assoc, Z.div_mul; [reflexivity |].
    pose proof (pow10_pos (length f)). lia.
  - unfold padEnd. replace (18 - length f)%nat with O by lia.
    simpl repeat. rewrite app_nil_r.
    assert (Hsplit : f = firstn 18 f ++ skipn 18 f)
      by (symmetry; apply firstn_skipn).
    assert (Hlen1 : length (firstn 18 f) = 18%nat)
      by (rewrite length_firstn; lia).
    assert (Hf2 : forallb is_digit (skipn 18 f) = true).
    { rewrite Hsplit, forallb_app in Hf. now apply andb_true_iff in Hf. }
    pose proof (parse_digits_bounds _ Hf2) as Hb.
    revert Hsplit Hlen1 Hb.
    generalize (firstn 18 f) as f1, (skipn 18 f) as f2.
    intros f1 f2 -> Hlen1 Hb.
    rewrite (app_assoc i f1 f2), (parse_digits_app (i ++ f1) f2).
    rewrite length_app, Hlen1, pow10_split.
    rewrite (Z.mul_comm _ (10 ^ Z.of_nat 18)).
    rewrite Z.div_mul_cancel_l.
    + symmetry. rewrite Z.add_comm, Z.div_add by lia.
      rewrite Z.div_small by lia. reflexivity.
    + pose proof (pow10_pos (length f2)). lia.
    + pose proof (pow10_pos 18). lia.
Qed.

Lemma scaled_digits_all (i f : str) :
  forallb is_digit i = true -> forallb is_digit f = true ->
  forallb is_digit (i ++ firstn 18 (padEnd f 18 "0")) = true.
Proof.
  intros Hi Hf. rewrite forallb_app, Hi. simpl.
  pose proof (padEnd_digits f 18 Hf) as Hp.
  rewrite <- (firstn_skipn 18 (padEnd f 18 "0")), forallb_app in Hp.
  now apply andb_true_iff in Hp.
Qed.

Lemma scaled18_nonneg (i f : str) :
  forallb is_digit i = true -> forallb is_digit f = true ->
  0 <= Spec.scaled18 i f.
Proof.
  intros Hi Hf. rewrite <- scaled_digits by assumption.
  apply parse_digits_bounds. now apply scaled_digits_all.
Qed.

Lemma multiply_shape (a : Amount.t) (s i f : str) :
  Spec.numeral_shape s i f ->
  Amount.multiply a (Amount.InString s)
  = Returns (Amount.mk
               (Z.quot (Amount.baseValue a * Spec.scaled18 i f) (10 ^ 18))
               (Amount.decimals a) (Amount.symbol a)).
Proof.
  intros Hs. unfold Amount.multiply. cbn [Amount.input_toString].
  replace (matches NUMERAL s) with true
    by (symmetry; apply matches_NUMERAL; eauto).
  destruct (shape_parts s i f Hs) as [-> ->]. cbn [negb]. cbv zeta.
  rewrite slice_prefix.
  change (Z.of_nat Amount.PRECISION) with 18. unfold Amount.PRECISION.
  pose proof (shape_fraction_digits s i f Hs) as Hf.
  destruct (shape_integer_digits s i f Hs) as [_ Hi].
  unfold Amount.toBigInt.
  rewrite BigInt_digits by now apply scaled_digits_all.
  rewrite scaled_digits by assumption. reflexivity.
Qed.

Lemma divide_shape (a : Amount.t) (s i f : str) :
  Spec.numeral_shape s i f ->
  Amount.divide a (Amount.InString s)
  = if Spec.scaled18 i f =? 0 then Throws Amount.DivisionByZero
    else Returns (Amount.mk
                    (Z.quot (Amount.baseValue a * 10 ^ 18)
                            (Spec.scaled18 i f))
                    (Amount.decimals a) (Amount.symbol a)).
Proof.
  intros Hs. unfold Amount.divide. cbn [Amount.input_toString].
  replace (matches NUMERAL s) with true
    by (symmetry; apply matches_NUMERAL; eauto).
  destruct (shape_parts s i f Hs) as [-> ->]. cbn [negb]. cbv zeta.
  rewrite slice_prefix.
  change (Z.of_nat Amount.PRECISION) with 18. unfold Amount.PRECISION.
  pose proof (shape_fraction_digits s i f Hs) as Hf.
  destruct (shape_integer_digits s i f Hs) as [_ Hi].
  unfold Amount.toBigInt.
  rewrite BigInt_digits by now apply scaled_digits_all.
  rewrite scaled_digits by assumption. reflexivity.
Qed.

(** [divide] throws exactly on a zero scaled divisor; otherwise the
    quotient is truncated toward zero, which is the floor when the base
    value is not negative. *)
Lemma divide_truncates (a : Amount.t) (s i f : str) :
  Spec.numeral_shape s i f ->
  (returned (Amount.divide a (Amount.InString s)) = false
   <-> Spec.scaled18 i f = 0)
  /\ (Spec.scaled18 i f <> 0 ->
      Amount.divide a (Amount.InString s)
      = Returns (Amount.mk
                   (Z.quot (Amount.toBase a * 10 ^ 18) (Spec.scaled18 i f))
                   (Amount.decimals a) (Amount.symbol a)))
  /\ (Spec.scaled18 i f <> 0 -> 0 <= Amount.toBase a ->
      Amount.divide a (Amount.InString s)
      = Returns (Amount.mk
                   ((Amount.toBase a * 10 ^ 18) / Spec.scaled18 i f)
                   (Amount.decimals a) (Amount.symbol a))).
Proof.
  intros Hs. rewrite (divide_shape a s i f Hs).
  pose proof (shape_fraction_digits s i f Hs) as Hf.
  destruct (shape_integer_digits s i f Hs) as [_ Hi].
  pose proof (scaled18_nonneg i f Hi Hf) as Hnn.
  unfold Amount.toBase in *.
  destruct (Z.eqb_spec (Spec.scaled18 i f) 0) as [Hz | Hnz]; simpl.
  - split; [tauto | split; congruence].
  - split; [split; [discriminate | congruence] |].
    split; [reflexivity |].
    intros _ Hbase. rewrite Z.quot_div_nonneg by lia. reflexivity.
Qed.

End ScalarFacts.

(* ------------------------------------------------------------------ *)
(** ** Compatibility, comparisons and subtraction                       *)
(* ------------------------------------------------------------------ *)

Section CompatFacts.
Import JS.

Lemma str_eqb_eq (s t : str) : str_eqb s t = true <-> s = t.
Proof.
  revert t. induction s as [| c s IH]; intros [| d t]; simpl;
    try (split; [discriminate | discriminate]); [tauto |].
  rewrite andb_true_iff, Ascii.eqb_eq, IH.
  split; [intros [-> ->]; reflexivity | intros H; injection H; auto].
Qed.

Lemma str_eqb_sym (s t : str) : str_eqb s t = str_eqb t s.
Proof.
  destruct (str_eqb s t) eqn:H1, (str_eqb t s) eqn:H2; try reflexivity.
  - apply str_eqb_eq in H1. subst. rewrite (proj2 (str_eqb_eq t t) eq_refl) in H2.
    discriminate.
  - apply str_eqb_eq in H2. subst. rewrite (proj2 (str_eqb_eq s s) eq_refl) in H1.
    discriminate.
Qed.

Lemma symbols_differ_spec (x y : option str) :
  Amount.symbols_differ x y = true
  <-> exists s1 s2, x = Some s1 /\ y = Some s2 /\ s1 <> s2.
Proof.
  destruct x as [s1 |], y as [s2 |]; simpl.
  - rewrite negb_true_iff. split.
    + intros H. exists s1, s2. repeat split. intros ->.
      rewrite (proj2 (str_eqb_eq s2 s2) eq_refl) in H. discriminate.
    + intros (t1 & t2 & [= <-] & [= <-] & Hne).
      destruct (str_eqb s1 s2) eqn:E; [| reflexivity].
      apply str_eqb_eq in E. contradiction.
  - split; [discriminate | intros (? & ? & _ & H & _); discriminate].
  - split; [discriminate | intros (? & ? & H & _); discriminate].
  - split; [discriminate | intros (? & ? & H & _); discriminate].
Qed.

Lemma isCompatible_false_iff (a b : Amount.t) :
  Amount.isCompatible a b = false <-> Spec.incompatible a b.
Proof.
  unfold Amount.isCompatible, Spec.incompatible.
  rewrite <- symbols_differ_spec.
  destruct (Nat.eqb_spec (Amount.decimals a) (Amount.decimals b)); simpl.
  - destruct (Amount.symbols_differ (Amount.symbol a) (Amount.symbol b)).
    + tauto.
    + split; [discriminate | intros [H | H]; [contradiction | discriminate]].
  - tauto.
Qed.

Lemma isCompatible_true_iff (a b : Amount.t) :
  Amount.isCompatible a b = true <-> Spec.compatible a b.
Proof.
  unfold Amount.isCompatible, Spec.compatible, Amount.symbols_differ.
  destruct (Nat.eqb_spec (Amount.decimals a) (Amount.decimals b)); simpl.
  - destruct (Amount.symbol a) as [s1 |], (Amount.symbol b) as [s2 |];
      try (split; [auto | reflexivity]).
    destruct (str_eqb s1 s2) eqn:E; simpl.
    + apply str_eqb_eq in E. subst. tauto.
    + split; [discriminate |].
      intros [_ [H | [H | H]]]; try discriminate.
      injection H as ->. rewrite (proj2 (str_eqb_eq s2 s2) eq_refl) in E.
      discriminate.
  - split; [discriminate | tauto].
Qed.

Lemma isCompatible_sym (a b : Amount.t) :
  Amount.isCompatible a b = Amount.isCompatible b a.
Proof.
  unfold Amount.isCompatible, Amount.symbols_differ.
  rewrite (Nat.eqb_sym (Amount.decimals a)).
  destruct (Amount.symbol a), (Amount.symbol b); try reflexivity.
  now rewrite str_eqb_sym.
Qed.

(** [assertCompatible] returns whenever [isCompatible] holds. *)
Lemma assertCompatible_isCompatible (a b : Amount.t) :
  Amount.isCompatible a b = true ->
  Amount.assertCompatible a b = Returns tt.
Proof.
  unfold Amount.isCompatible, Amount.assertCompatible, Amount.symbols_differ.
  destruct (negb (Amount.decimals a =? Amount.decimals b)%nat);
    [discriminate |].
  destruct (Amount.symbol a), (Amount.symbol b); try reflexivity.
  destruct (negb (str_eqb s s0)); [discriminate | reflexivity].
Qed.

Lemma minus_sign_rejected (s : str) :
  matches NUMERAL ("-"%char :: s) = false.
Proof.
  destruct (matches NUMERAL ("-"%char :: s)) eqn:Hm; [| reflexivity].
  apply matches_NUMERAL in Hm. destruct Hm as (i & f & Hs).
  assert (Hhd : exists i', i = "-"%char :: i').
  { inversion Hs as [i0 [Hne _] | i0 f0 [Hne _] _]; subst.
    - eauto.
    - destruct i as [| c i']; [congruence |].
      match goal with H : _ = _ :: _ |- _ => injection H as -> _ end.
      eauto. }
  destruct Hhd as (i' & ->).
  destruct (shape_integer_digits _ _ _ Hs) as [_ Hd]. discriminate Hd.
Qed.

End CompatFacts.

(* ------------------------------------------------------------------ *)
(** ** Claims on arithmetic and comparisons                             *)
(* ------------------------------------------------------------------ *)

Section ArithmeticClaims.
Import JS.
Open Scope Z_scope.

Lemma shape_of_integer_literal (i : str) :
  i <> [] -> forallb is_digit i = true -> Spec.numeral_shape i i [].
Proof. intros Hne Hd. now constructor. Qed.

(** The two worked examples of scalar arithmetic:
    [fromUnit("10", 18).multiply("2").divide("2").toUnit() == "10"] and
    [fromUnit("10", 18).divide(4).toUnit() == "2.5"]. *)
Lemma scalar_examples :
  Amount.toUnit_of
    (Amount.bind (Amount.fromUnit (Amount.InString (lit "10")) 18 None)
       (fun a => Amount.bind (Amount.multiply a (Amount.InString (lit "2")))
          (fun b => Amount.divide b (Amount.InString (lit "2")))))
  = Returns (lit "10")
  /\ Amount.toUnit_of
       (Amount.bind (Amount.fromUnit (Amount.InString (lit "10")) 18 None)
          (fun a => Amount.divide a (Amount.InNumber 4)))
     = Returns (lit "2.5").
Proof. split; vm_compute; reflexivity. Qed.

(** C4, at the failing input.  The amount with base value [-1] (what
    [fromUnit("1", 0).subtract(fromUnit("2", 0))] returns) divided by ["3"]:
    the scaled divisor is [3 * 10^18], the floor of [-10^18 / (3 * 10^18)]
    is [-1], and [divide] returns the base value [0]. *)
Theorem divide_negative_base_not_floor :
  Amount.bind (Amount.fromUnit (Amount.InString (lit "1")) 0 None)
    (fun x => Amount.bind (Amount.fromUnit (Amount.InString (lit "2")) 0 None)
       (fun y => Amount.subtract x y))
  = Returns (Amount.mk (-1) 0 None)
  /\ Spec.numeral_shape (lit "3") (lit "3") []
  /\ Spec.scaled18 (lit "3") [] = 3 * 10 ^ 18
  /\ (Amount.toBase (Amount.mk (-1) 0 None) * 10 ^ 18)
       / Spec.scaled18 (lit "3") [] = -1
  /\ Amount.divide (Amount.mk (-1) 0 None) (Amount.InString (lit "3"))
     = Returns (Amount.mk 0 0 None).
Proof.
  split; [vm_compute; reflexivity |].
  split; [apply shape_of_integer_literal; [discriminate | reflexivity] |].
  repeat split; vm_compute; reflexivity.
Qed.

(** C5.  [eq], [gt], [gte], [lt] and [lte] are total and return [false] on
    incompatible amounts (different decimals, or both symbols set and
    different), and [a.eq(b) == b.eq(a)] for every pair of amounts. *)
Theorem comparisons_incompatible (a b : Amount.t) :
  (Spec.incompatible a b ->
   Amount.eq a b = false /\ Amount.gt a b = false /\ Amount.gte a b = false
   /\ Amount.lt a b = false /\ Amount.lte a b = false)
  /\ Amount.eq a b = Amount.eq b a.
Proof.
  split.
  - intros H. apply isCompatible_false_iff in H.
    unfold Amount.eq, Amount.gt, Amount.gte, Amount.lt, Amount.lte.
    rewrite H. simpl. repeat split.
  - unfold Amount.eq. rewrite (isCompatible_sym a b).
    destruct (negb (Amount.isCompatible b a)); [reflexivity |].
    apply Z.eqb_sym.
Qed.

Lemma comparisons_incompatible_witness :
  Spec.incompatible (Amount.mk 15 18 (Some (lit "ETH")))
                    (Amount.mk 15 6 (Some (lit "USDC")))
  /\ Amount.eq (Amount.mk 15 18 (Some (lit "ETH")))
               (Amount.mk 15 6 (Some (lit "USDC"))) = false
  /\ Amount.eq (Amount.mk 15 6 (Some (lit "USDC")))
               (Amount.mk 15 18 (Some (lit "ETH"))) = false.
Proof.
  assert (Hinc : Spec.incompatible (Amount.mk 15 18 (Some (lit "ETH")))
                                   (Amount.mk 15 6 (Some (lit "USDC")))).
  { left. simpl. discriminate. }
  destruct (comparisons_incompatible (Amount.mk 15 18 (Some (lit "ETH")))
              (Amount.mk 15 6 (Some (lit "USDC")))) as [Hfalse Hsym].
  split; [exact Hinc |].
  split; [exact (proj1 (Hfalse Hinc)) |].
  rewrite <- Hsym. exact (proj1 (Hfalse Hinc)).
Defined.

(** C9.  On compatible amounts [a.subtract(b)] returns an amount whose base
    value is exactly [a.toBase() - b.toBase()], negative when [b] exceeds
    [a]; [fromUnit] never yields a negative base value and rejects a
    numeral with a minus sign; so negative amounts are reachable:
    [fromUnit("1", 0).subtract(fromUnit("2", 0))] has base value [-1]. *)
Theorem subtract_base_value (a b : Amount.t) :
  Spec.compatible a b ->
  (exists r, Amount.subtract a b = Returns r
             /\ Amount.toBase r = Amount.toBase a - Amount.toBase b
             /\ Amount.getDecimals r = Amount.getDecimals a
             /\ (Amount.toBase a < Amount.toBase b -> Amount.toBase r < 0))
  /\ (forall s d sym r,
        Amount.fromUnit (Amount.InString s) d sym = Returns r ->
        0 <= Amount.toBase r)
  /\ (forall s d sym,
        Amount.fromUnit (Amount.InString ("-"%char :: s)) d sym
        = Throws (Amount.InvalidUnitAmount ("-"%char :: s)))
  /\ Amount.bind (Amount.fromUnit (Amount.InString (lit "1")) 0 None)
       (fun x => Amount.bind (Amount.fromUnit (Amount.InString (lit "2")) 0 None)
          (fun y => Amount.subtract x y))
     = Returns (Amount.mk (-1) 0 None).
Proof.
  intros Hc. apply isCompatible_true_iff in Hc.
  split; [| split; [| split]].
  - unfold Amount.subtract.
    rewrite (assertCompatible_isCompatible a b Hc). simpl.
    eexists. split; [reflexivity |]. unfold Amount.toBase. simpl.
    repeat split. lia.
  - intros s d sym r Hr.
    destruct (matches NUMERAL s) eqn:Hm.
    + apply matches_NUMERAL in Hm. destruct Hm as (i & f & Hs).
      destruct (Nat.lt_ge_cases d (length f)) as [Hlt | Hge].
      * rewrite (fromUnit_overflow s i f d sym Hs Hlt) in Hr. discriminate.
      * rewrite (fromUnit_accepts s i f d sym Hs Hge) in Hr.
        injection Hr as <-. unfold Amount.toBase. simpl.
        apply parse_digits_bounds. rewrite forallb_app.
        destruct (shape_integer_digits s i f Hs) as [_ ->].
        apply padEnd_digits. exact (shape_fraction_digits s i f Hs).
    + rewrite fromUnit_invalid in Hr by assumption. discriminate.
  - intros s d sym. apply fromUnit_invalid. apply minus_sign_rejected.
  - vm_compute. reflexivity.
Qed.

Lemma subtract_base_value_witness :
  Spec.compatible (Amount.mk 2 18 (Some (lit "ETH"))) (Amount.mk 5 18 None)
  /\ Amount.subtract (Amount.mk 2 18 (Some (lit "ETH"))) (Amount.mk 5 18 None)
     = Returns (Amount.mk (-3) 18 (Some (lit "ETH"))).
Proof.
  assert (Hc : Spec.compatible (Amount.mk 2 18 (Some (lit "ETH")))
                               (Amount.mk 5 18 None)).
  { split; [reflexivity | right; left; reflexivity]. }
  split; [exact Hc |].
  destruct (subtract_base_value (Amount.mk 2 18 (Some (lit "ETH")))
              (Amount.mk 5 18 None) Hc) as [(r & Hr & _) _].
  rewrite Hr. vm_compute in Hr. exact (eq_sym Hr).
Defined.



End ArithmeticClaims.

(* ------------------------------------------------------------------ *)
(** ** The wallet: runs of the methods                                  *)
(* ------------------------------------------------------------------ *)

Section WalletFacts.
Import JS Wallet.

Variable env : Env.
Variable w : Wallet.t.

Lemma deploy_count_app (tr1 tr2 : list Event) :
  deploy_count (tr1 ++ tr2) = (deploy_count tr1 + deploy_count tr2)%nat.
Proof.
  induction tr1 as [| ev tr1 IH]; [reflexivity |].
  destruct ev; simpl; now rewrite ?IH.
Qed.

Lemma progress_steps_app (tr1 tr2 : list Event) :
  progress_steps (tr1 ++ tr2) = progress_steps tr1 ++ progress_steps tr2.
Proof.
  induction tr1 as [| ev tr1 IH]; [reflexivity |].
  destruct ev; simpl; now rewrite ?IH.
Qed.

(** [isDeployed] makes one query and turns its outcome into a boolean. *)
Lemma isDeployed_run :
  isDeployed env w
  = ([EvGetClassHashAt (address w)],
     Returns match getClassHashAt env (address w) with
             | Returns classHash => truthy classHash
             | Throws _ => false
             end).
Proof.
  unfold isDeployed, try_catch, bind, call, ret.
  now destruct (getClassHashAt env (address w)).
Qed.

Lemma progress_run (options : EnsureReadyOptions)
    (callback : ProgressStep -> Outcome Thrown unit) (step : ProgressStep) :
  onProgress options = Some callback -> callback step = Returns tt ->
  progress options step = ([EvProgress step], Returns tt).
Proof. intros Hcb Hok. unfold progress, call. now rewrite Hcb, Hok. Qed.

(** What [requestSponsorship] does when a sponsor is configured. *)
Lemma requestSponsorship_run (sp : SponsorConfig) (cs : list Call)
    (hint : option SponsorPolicyHint) :
  sponsor w = Some sp ->
  let request := {| calls := cs; callerAddress := address w;
                    chainId := cfg_chainId (config w);
                    policyHint := hint |} in
  requestSponsorship w cs hint
  = ([EvGetSponsorship request],
     match getSponsorship sp request with
     | Returns response => Returns response
     | Throws error =>
         Throws (ErrorObj (lit "Sponsorship rejected: "
                             ++ message_or_unknown error))
     end).
Proof.
  intros Hsp. unfold requestSponsorship, try_catch, call, throw.
  rewrite Hsp. destruct (getSponsorship sp _); reflexivity.
Qed.

(** [deploy] is entered once per call and hands nothing to the progress
    callback. *)
Lemma deploy_entered_once (options : DeployOptions) :
  deploy_count (trace (deploy env w options)) = 1%nat
  /\ progress_steps (trace (deploy env w options)) = [].
Proof.
  unfold deploy, requestSponsorship, try_catch, bind, call, ret, throw.
  destruct (getPublicKey env) as [pk | e]; [| now split].
  destruct (FeeMode_eqb _ sponsored).
  - destruct (sponsor w) as [sp |]; [| now split].
    destruct (getSponsorship sp _) as [resp | e']; [| now split].
    destruct (deployAccount env _); now split.
  - destruct (deployAccount env _); now split.
Qed.

Lemma prefix_changes_message (p m : str) : p <> [] -> p ++ m <> m.
Proof.
  intros Hp H. apply (f_equal (@length ascii)) in H.
  rewrite length_app in H. destruct p; [congruence | simpl in H; lia].
Qed.

End WalletFacts.

(* ------------------------------------------------------------------ *)
(** ** Claims on the wallet                                             *)
(* ------------------------------------------------------------------ *)

Section WalletClaims.
Import JS Wallet.

(** C8.  [isDeployed] never throws: it returns [true] exactly when the
    class-hash query returns a truthy class hash for the wallet's address,
    and [false] both when the query returns no class hash and when the
    query fails. *)
Theorem isDeployed_never_throws (env : Env) (w : Wallet.t) :
  exists b,
    outcome (isDeployed env w) = Returns b
    /\ (b = true <->
         exists classHash,
           getClassHashAt env (address w) = Returns classHash
           /\ truthy classHash = true)
    /\ (forall classHash,
          getClassHashAt env (address w) = Returns classHash ->
          truthy classHash = false -> b = false)
    /\ (forall error,
          getClassHashAt env (address w) = Throws error -> b = false).
Proof.
  rewrite isDeployed_run. unfold outcome. simpl.
  destruct (getClassHashAt env (address w)) as [h | e].
  - exists (truthy h). split; [reflexivity |]. split; [| split].
    + split; [intros Ht; eauto |].
      intros (h' & [= <-] & Ht). exact Ht.
    + intros h' [= <-] Hf. exact Hf.
    + intros e [=].
  - exists false. split; [reflexivity |]. split; [| split].
    + split; [discriminate | intros (h' & [=] & _)].
    + intros h' [=].
    + reflexivity.
Qed.

Lemma isDeployed_never_throws_witness :
  outcome (isDeployed Examples.unreachable_network Examples.plain_wallet)
  = Returns false.
Proof.
  destruct (isDeployed_never_throws Examples.unreachable_network
              Examples.plain_wallet) as (b & Hb & _ & _ & Hfail).
  rewrite Hb. f_equal. exact (Hfail _ eq_refl).
Defined.




(** C6 (as amended).  When [execute] or [deploy] runs in sponsored fee
    mode and the call it makes to the sponsor callback fails, the
    operation fails with one wrapped error and never with what the sponsor
    threw.  The message of the wrapped error is ["Sponsorship rejected: "]
    followed by the message [m] of the failure when the sponsor threw an
    [Error], and followed by ["Unknown error"] when it threw anything
    else: what such a value carried is not in the wrapped message. *)
Theorem sponsorship_rejection_wrapped (env : Env) (w : Wallet.t)
    (sp : SponsorConfig) (error : Thrown) :
  sponsor w = Some sp ->
  (forall cs options,
     nullish (ex_feeMode options) (defaultFeeMode w) = sponsored ->
     (exists request,
        In (EvGetSponsorship request) (trace (execute env w cs options))
        /\ getSponsorship sp request = Throws error) ->
     outcome (execute env w cs options)
     = Throws (ErrorObj (lit "Sponsorship rejected: "
                           ++ message_or_unknown error))
     /\ outcome (execute env w cs options) <> Throws error)
  /\ (forall options,
        nullish (dep_feeMode options) (defaultFeeMode w) = sponsored ->
        (exists request,
           In (EvGetSponsorship request) (trace (deploy env w options))
           /\ getSponsorship sp request = Throws error) ->
        outcome (deploy env w options)
        = Throws (ErrorObj (lit "Sponsorship rejected: "
                              ++ message_or_unknown error))
        /\ outcome (deploy env w options) <> Throws error)
  /\ (forall m, error = ErrorObj m ->
        lit "Sponsorship rejected: " ++ message_or_unknown error
        = lit "Sponsorship rejected: " ++ m)
  /\ (forall value, error = NonError value ->
        lit "Sponsorship rejected: " ++ message_or_unknown error
        = lit "Sponsorship rejected: Unknown error").
Proof.
  intros Hsp.
  assert (Hraw : forall A : Type,
            @Throws Thrown A
              (ErrorObj (lit "Sponsorship rejected: "
                           ++ message_or_unknown error))
            <> Throws error).
  { intros A H. injection H as H. destruct error as [m | value].
    - injection H as H.
      now apply (prefix_changes_message (lit "Sponsorship rejected: ") m).
    - discriminate. }
  split; [| split; [| split; [now intros m -> | now intros value ->]]].
  - intros cs options Hmode (request & Hin & Hfail).
    unfold execute in *. rewrite Hmode in *. cbn [FeeMode_eqb] in *.
    rewrite (requestSponsorship_run w _ cs _ Hsp) in *.
    cbv zeta in *. cbn [bind] in *.
    destruct (getSponsorship sp _) as [resp | e] eqn:Hg.
    + exfalso. unfold call in Hin.
      destruct (account_execute env cs _) in Hin;
        cbn in Hin; destruct Hin as [Heq | [Heq | []]];
        try discriminate; injection Heq as <-; congruence.
    + cbn in Hin. destruct Hin as [Heq | []]. injection Heq as <-.
      rewrite Hfail in Hg. injection Hg as <-. cbn [outcome snd].
      split; [reflexivity | apply Hraw].
  - intros options Hmode (request & Hin & Hfail).
    unfold deploy in *. rewrite Hmode in *. cbn [FeeMode_eqb] in *.
    unfold call at 1 2 in Hin. unfold call at 1 2. cbn [bind app] in *.
    destruct (getPublicKey env) as [pk | e0].
    + cbn [bind app] in *.
      rewrite (requestSponsorship_run w _ [] _ Hsp) in *.
      cbv zeta in *. cbn [bind app] in *.
      destruct (getSponsorship sp _) as [resp | e] eqn:Hg.
      * exfalso. unfold call in Hin.
        destruct (deployAccount env _) in Hin;
          cbn in Hin;
          destruct Hin as [Heq | [Heq | [Heq | [Heq | []]]]];
          try discriminate; injection Heq as <-; congruence.
      * cbn in Hin. destruct Hin as [Heq | [Heq | [Heq | []]]];
          try discriminate.
        injection Heq as <-. rewrite Hfail in Hg. injection Hg as <-.
        cbn [outcome snd].
        split; [reflexivity | apply Hraw].
    + exfalso. cbn in Hin. destruct Hin as [Heq | [Heq | []]]; discriminate.
Qed.

Lemma sponsorship_rejection_wrapped_witness :
  outcome (execute Examples.undeployed_network Examples.sponsored_wallet
             [Examples.test_call] Examples.default_execute_options)
  = Throws (ErrorObj (lit "Sponsorship rejected: Rate limit exceeded"))
  /\ outcome (deploy Examples.undeployed_network Examples.sponsored_wallet
                Examples.default_deploy_options)
     = Throws (ErrorObj (lit "Sponsorship rejected: Rate limit exceeded")).
Proof.
  destruct (sponsorship_rejection_wrapped Examples.undeployed_network
              Examples.sponsored_wallet Examples.rate_limited
              (ErrorObj (lit "Rate limit exceeded")) eq_refl)
    as (Hexec & Hdep & _).
  split.
  - refine (proj1 (Hexec [Examples.test_call]
                     Examples.default_execute_options eq_refl _)).
    eexists. split; [left; reflexivity | reflexivity].
  - refine (proj1 (Hdep Examples.default_deploy_options eq_refl _)).
    eexists. split; [right; right; left; reflexivity | reflexivity].
Defined.

(** C6, the counterexample: the sponsor rejects with the string
    "Rate limit exceeded", which is not an [Error]; [execute] and [deploy]
    fail with "Sponsorship rejected: Unknown error", and the wrapped
    message does not contain what the sponsor rejected with. *)
Lemma sponsorship_rejection_loses_non_error :
  getSponsorship Examples.rejecting_with_string
    {| calls := [Examples.test_call];
       callerAddress := address Examples.string_rejected_wallet;
       chainId := lit "SN_SEPOLIA";
       policyHint := None |}
  = Throws (NonError (lit "Rate limit exceeded"))
  /\ In (EvGetSponsorship
           {| calls := [Examples.test_call];
              callerAddress := address Examples.string_rejected_wallet;
              chainId := lit "SN_SEPOLIA";
              policyHint := None |})
        (trace (execute Examples.undeployed_network
                  Examples.string_rejected_wallet [Examples.test_call]
                  Examples.default_execute_options))
  /\ outcome (execute Examples.undeployed_network
                Examples.string_rejected_wallet [Examples.test_call]
                Examples.default_execute_options)
     = Throws (ErrorObj (lit "Sponsorship rejected: Unknown error"))
  /\ outcome (execute Examples.undeployed_network
                Examples.string_rejected_wallet [Examples.test_call]
                Examples.default_execute_options)
     <> Throws (ErrorObj (lit "Sponsorship rejected: Rate limit exceeded"))
  /\ outcome (deploy Examples.undeployed_network
                Examples.string_rejected_wallet
                Examples.default_deploy_options)
     = Throws (ErrorObj (lit "Sponsorship rejected: Unknown error")).
Proof.
  split; [reflexivity |].
  split; [left; reflexivity |].
  split; [vm_compute; reflexivity |].
  split; [vm_compute; discriminate | vm_compute; reflexivity].
Qed.

(** C7 (as amended).  [preflight] never throws: for every network, wallet
    and options it returns a structured result.  An exception raised by
    the simulation call is caught and reported as a failed check whose
    reason is the exception's message when it is an [Error] and
    ["Unknown error"] otherwise.  An exception raised by the class-hash
    query is absorbed by [isDeployed] and counts as "not deployed": the
    check fails with ["Account not deployed"] unless the kind is
    ["execute"], and the exception's message is not reported. *)
Theorem preflight_never_throws (env : Env) (w : Wallet.t)
    (options : PreflightOptions) :
  (exists result, outcome (preflight env w options) = Returns result)
  /\ (forall cs error,
        In (EvSimulateTransaction cs) (trace (preflight env w options)) ->
        simulateTransaction env cs = Throws error ->
        outcome (preflight env w options)
        = Returns (PreflightFailed
                     match error with
                     | ErrorObj message => message
                     | NonError _ => lit "Unknown error"
                     end))
  /\ (forall error,
        getClassHashAt env (address w) = Throws error ->
        str_eqb (kind options) (lit "execute") = false ->
        outcome (preflight env w options)
        = Returns (PreflightFailed (lit "Account not deployed"))).
Proof.
  unfold preflight. rewrite isDeployed_run. cbv zeta. cbn [bind app].
  set (deployed := match getClassHashAt env (address w) with
                   | Returns classHash => truthy classHash
                   | Throws _ => false
                   end).
  split; [| split].
  - destruct (negb deployed && negb (str_eqb (kind options) (lit "execute")));
      [cbn; eauto |].
    destruct (FeeMode_eqb _ sponsored && _); [cbn; eauto |].
    destruct (0 <? length (nullish (pf_calls options) []))%nat;
      [| cbn; eauto].
    unfold call. cbn [bind app].
    destruct (simulateTransaction env _) as [sim | e]; [| cbn; eauto].
    destruct (nth_error sim 0) as [[[[[[| rr] |]] |]] |]; cbn; eauto.
  - intros cs error Hin Hsim.
    destruct (negb deployed && negb (str_eqb (kind options) (lit "execute")));
      [cbn in Hin; destruct Hin as [H | []]; discriminate |].
    destruct (FeeMode_eqb _ sponsored && _);
      [cbn in Hin; destruct Hin as [H | []]; discriminate |].
    destruct (0 <? length (nullish (pf_calls options) []))%nat;
      [| cbn in Hin; destruct Hin as [H | []]; discriminate].
    unfold call in *. cbn [bind app] in *.
    destruct (simulateTransaction env (nullish (pf_calls options) []))
      as [sim | e] eqn:Hs.
    + exfalso.
      destruct (nth_error sim 0) as [[[[[[| rr] |]] |]] |];
        cbn in Hin; destruct Hin as [H | [H | []]]; try discriminate;
        injection H as <-; congruence.
    + cbn in Hin. destruct Hin as [H | [H | []]]; try discriminate.
      injection H as <-. rewrite Hsim in Hs. injection Hs as <-.
      cbn. now destruct error.
  - intros error Hq Hkind. subst deployed. rewrite Hq, Hkind. reflexivity.
Qed.

Lemma preflight_never_throws_witness :
  outcome (preflight Examples.failing_simulation_network Examples.plain_wallet
             (Examples.preflight_execute (Some [Examples.test_call])))
  = Returns (PreflightFailed (lit "RPC timeout")).
Proof.
  destruct (preflight_never_throws Examples.failing_simulation_network
              Examples.plain_wallet
              (Examples.preflight_execute (Some [Examples.test_call])))
    as (_ & Hsim & _).
  refine (Hsim [Examples.test_call] (ErrorObj (lit "RPC timeout")) _ eq_refl).
  right. left. reflexivity.
Defined.

(** C7, the counterexample: the class-hash query throws "network down"
    during the deployment check of a preflight of kind ["execute"] without
    calls; the result is [{ ok: true }], not a failed check carrying the
    message of the exception. *)
Lemma preflight_swallows_query_failure :
  getClassHashAt Examples.unreachable_network
    (address Examples.plain_wallet)
  = Throws (ErrorObj (lit "network down"))
  /\ In (EvGetClassHashAt (address Examples.plain_wallet))
        (trace (preflight Examples.unreachable_network Examples.plain_wallet
                  (Examples.preflight_execute None)))
  /\ outcome (preflight Examples.unreachable_network Examples.plain_wallet
                (Examples.preflight_execute None))
     = Returns PreflightOk
  /\ outcome (preflight Examples.unreachable_network Examples.plain_wallet
                (Examples.preflight_execute None))
     <> Returns (PreflightFailed (lit "network down")).
Proof.
  split; [reflexivity |].
  split; [left; reflexivity |].
  split; [vm_compute; reflexivity | vm_compute; discriminate].
Qed.

End WalletClaims.

(* ------------------------------------------------------------------ *)
(** ** Further properties of [Amount]: printing and parsing back        *)
(* ------------------------------------------------------------------ *)

Section PrintFacts.
Import JS.
Open Scope Z_scope.

Lemma digit_char_is_digit (d : Z) :
  0 <= d < 10 -> is_digit (digit_char d) = true /\ digit_val (digit_char d) = d.
Proof.
  intros Hd. unfold is_digit, digit_val, digit_char.
  rewrite nat_ascii_embedding by lia. split.
  - apply andb_true_iff. split; apply Nat.leb_le; lia.
  - lia.
Qed.

Lemma parse_digits_single (c : ascii) : parse_digits [c] = digit_val c.
Proof. unfold parse_digits. cbn [fold_left]. lia. Qed.

Lemma digits_fuel_value (f : nat) : forall n,
  0 <= n < 10 ^ Z.of_nat (S f) ->
  forallb is_digit (digits_fuel f n []) = true
  /\ parse_digits (digits_fuel f n []) = n.
Proof.
  assert (Hsmall : forall g n, 0 <= n < 10 ->
            forallb is_digit (digits_fuel g n []) = true
            /\ parse_digits (digits_fuel g n []) = n).
  { intros g n Hn. rewrite digits_fuel_small by assumption.
    destruct (digit_char_is_digit n Hn) as [Hd Hv].
    cbn [forallb]. rewrite Hd, parse_digits_single, Hv. now split. }
  induction f as [| f IH]; intros n Hn.
  - apply Hsmall. change (10 ^ Z.of_nat 1) with 10 in Hn. exact Hn.
  - destruct (Z.ltb_spec n 10) as [Hlt | Hge].
    + apply Hsmall. lia.
    + cbn [digits_fuel]. destruct (Z.ltb_spec n 10); [lia |].
      rewrite digits_fuel_acc.
      rewrite Nat2Z.inj_succ, Z.pow_succ_r in Hn by lia.
      destruct (IH (n / 10)) as [Hall Hval].
      { split; [apply Z.div_pos; lia | apply Z.div_lt_upper_bound; lia]. }
      destruct (digit_char_is_digit (n mod 10)) as [Hd Hv].
      { apply Z.mod_pos_bound. lia. }
      split.
      * rewrite forallb_app, Hall. cbn [forallb]. now rewrite Hd.
      * rewrite parse_digits_snoc, Hval, Hv.
        symmetry. apply Z.div_mod. lia.
Qed.

(** The decimal digits of a non-negative integer denote it. *)
Lemma digits_of_value (n : Z) :
  0 <= n ->
  digits_of n <> []
  /\ forallb is_digit (digits_of n) = true
  /\ parse_digits (digits_of n) = n.
Proof.
  intros Hn. split; [apply digits_of_nonempty |].
  apply digits_fuel_value. split; [assumption | now apply log2_fuel_enough].
Qed.

Lemma parse_digits_leading_zeros (k : nat) (s : str) :
  parse_digits (repeat "0"%char k ++ s) = parse_digits s.
Proof. now rewrite parse_digits_app, parse_digits_zeros. Qed.

(** The two windows [toUnit] cuts, for a positive number of decimals. *)
Lemma slice_drop_last (p : str) (d : nat) :
  (0 < d)%nat ->
  slice p 0 (- Z.of_nat d) = firstn (length p - d) p.
Proof.
  intros Hd. unfold slice, rel_index.
  destruct (Z.ltb_spec 0 0); [lia |].
  destruct (Z.ltb_spec (- Z.of_nat d) 0); [| lia].
  simpl Nat.min. simpl skipn. f_equal. lia.
Qed.

Lemma slice_keep_last (p : str) (d : nat) :
  (0 < d)%nat ->
  slice_from p (- Z.of_nat d) = skipn (length p - d) p.
Proof.
  intros Hd. unfold slice_from, rel_index.
  destruct (Z.ltb_spec (- Z.of_nat d) 0); [| lia].
  f_equal. lia.
Qed.

(** A string is its part before the trailing zeros, then zeros. *)
Lemma trailing_zeros_restore (f : str) :
  padEnd (replace_trailing_zeros f) (length f) "0" = f.
Proof.
  unfold padEnd, replace_trailing_zeros.
  pose proof (drop_zeros_repeat (rev f)) as Hrep.
  apply (f_equal (@rev ascii)) in Hrep.
  rewrite rev_involutive, rev_app_distr, rev_repeat_zero in Hrep.
  rewrite !length_rev in *. symmetry. exact Hrep.
Qed.

Lemma replace_trailing_zeros_length (f : str) :
  (length (replace_trailing_zeros f) <= length f)%nat.
Proof.
  unfold replace_trailing_zeros. rewrite length_rev.
  pose proof (drop_zeros_length (rev f)) as H. now rewrite length_rev in H.
Qed.

Lemma forallb_drop_zeros (p : ascii -> bool) (s : str) :
  forallb p s = true -> forallb p (drop_zeros s) = true.
Proof.
  induction s as [| c s IH]; simpl; [reflexivity |].
  intros H. destruct (is_zero_char c); [| exact H].
  apply andb_true_iff in H. now apply IH.
Qed.

Lemma forallb_replace_trailing_zeros (p : ascii -> bool) (f : str) :
  forallb p f = true -> forallb p (replace_trailing_zeros f) = true.
Proof.
  intros H. unfold replace_trailing_zeros.
  rewrite forallb_forall in *. intros c Hc. apply in_rev in Hc.
  assert (Hrev : forallb p (rev f) = true).
  { apply forallb_forall. intros x Hx. apply in_rev in Hx. now apply H. }
  apply forallb_drop_zeros in Hrev.
  rewrite forallb_forall in Hrev. now apply Hrev.
Qed.

(** What [toUnit] prints for a base value that is not negative: the digits
    before the last [decimals] ones, and the rest without trailing zeros. *)
Lemma toUnit_nonneg_shape (a : Amount.t) :
  0 <= Amount.baseValue a ->
  exists i fp,
    Spec.digits i /\ forallb is_digit fp = true
    /\ length fp = Amount.decimals a
    /\ parse_digits (i ++ fp) = Amount.baseValue a
    /\ Spec.numeral_shape (Amount.toUnit a) i (replace_trailing_zeros fp).
Proof.
  intros Hn. destruct a as [n d sym]. simpl in *.
  destruct (digits_of_value n Hn) as (Hne & Hall & Hval).
  unfold Amount.toUnit. simpl.
  assert (Hts : BigInt_toString n = digits_of n).
  { unfold BigInt_toString. destruct (Z.ltb_spec n 0); [lia | reflexivity]. }
  rewrite Hts.
  destruct (Nat.eqb_spec d 0) as [-> | Hd].
  - exists (digits_of n), []. rewrite app_nil_r.
    split; [now split |]. split; [reflexivity |]. split; [reflexivity |].
    split; [assumption |]. constructor. now split.
  - set (p := padStart (digits_of n) (d + 1) "0").
    assert (Hp_all : forallb is_digit p = true).
    { unfold p, padStart. now rewrite forallb_app, forallb_repeat_zero. }
    assert (Hp_val : parse_digits p = n).
    { unfold p, padStart. now rewrite parse_digits_leading_zeros. }
    assert (Hp_len : (d + 1 <= length p)%nat).
    { unfold p, padStart. rewrite length_app, repeat_length. lia. }
    rewrite slice_drop_last, slice_keep_last by lia.
    set (i := firstn (length p - d) p). set (fp := skipn (length p - d) p).
    assert (Hsplit : p = i ++ fp) by (symmetry; apply firstn_skipn).
    assert (Hi_len : length i = (length p - d)%nat)
      by (unfold i; rewrite length_firstn; lia).
    assert (Hfp_len : length fp = d)
      by (unfold fp; rewrite length_skipn; lia).
    rewrite Hsplit, forallb_app in Hp_all.
    apply andb_true_iff in Hp_all. destruct Hp_all as [Hi_all Hfp_all].
    assert (Hi : Spec.digits i).
    { split; [| assumption]. intros E. rewrite E in Hi_len. simpl in Hi_len.
      lia. }
    exists i, fp.
    split; [exact Hi |]. split; [exact Hfp_all |].
    split; [exact Hfp_len |]. split.
    + now rewrite <- Hsplit.
    + pose proof (forallb_replace_trailing_zeros is_digit fp Hfp_all) as Hc.
      destruct (replace_trailing_zeros fp) as [| c cf] eqn:E.
      * now constructor.
      * constructor; [assumption |]. split; [discriminate | assumption].
Qed.

Lemma fromUnit_of_toUnit (a : Amount.t) :
  0 <= Amount.baseValue a ->
  Amount.fromUnit (Amount.InString (Amount.toUnit a)) (Amount.decimals a)
    (Amount.symbol a)
  = Returns a.
Proof.
  intros Hn.
  destruct (toUnit_nonneg_shape a Hn) as (i & fp & Hi & Hfp & Hlen & Hval & Hs).
  rewrite (fromUnit_accepts _ _ _ _ _ Hs)
    by (rewrite <- Hlen; apply replace_trailing_zeros_length).
  rewrite <- Hlen, trailing_zeros_restore, Hval, Hlen.
  now destruct a.
Qed.

End PrintFacts.

Section PrintClaims.
Import JS.
Open Scope Z_scope.

(** X1.  Printing and parsing back: for every amount whose base value is
    not negative, [toUnit()] is a numeral of the grammar of [fromUnit] with
    at most [decimals] fractional digits, and [fromUnit] of it, with the
    amount's own decimals and symbol, gives the amount back. *)
Theorem toUnit_fromUnit_inverse (a : Amount.t) :
  0 <= Amount.toBase a ->
  matches NUMERAL (Amount.toUnit a) = true
  /\ (length (Amount.fraction_of (Amount.toUnit a)) <= Amount.getDecimals a)%nat
  /\ Amount.fromUnit (Amount.InString (Amount.toUnit a))
       (Amount.getDecimals a) (Amount.getSymbol a)
     = Returns a.
Proof.
  intros Hn.
  destruct (toUnit_nonneg_shape a Hn) as (i & fp & _ & _ & Hlen & _ & Hs).
  split; [apply matches_NUMERAL; eauto |].
  split; [| exact (fromUnit_of_toUnit a Hn)].
  destruct (shape_parts _ _ _ Hs) as [_ ->].
  unfold Amount.getDecimals. rewrite <- Hlen.
  apply replace_trailing_zeros_length.
Qed.

Lemma toUnit_fromUnit_inverse_witness :
  0 <= Amount.toBase (Amount.mk 500 18 (Some (lit "STRK")))
  /\ Amount.toUnit (Amount.mk 500 18 (Some (lit "STRK")))
     = lit "0.0000000000000005"
  /\ Amount.fromUnit (Amount.InString (lit "0.0000000000000005")) 18
       (Some (lit "STRK"))
     = Returns (Amount.mk 500 18 (Some (lit "STRK"))).
Proof.
  split; [unfold Amount.toBase; simpl; lia |].
  split; [vm_compute; reflexivity |].
  refine (proj2 (proj2 (toUnit_fromUnit_inverse
                          (Amount.mk 500 18 (Some (lit "STRK"))) _))).
  unfold Amount.toBase. simpl. lia.
Defined.

Lemma toUnit_zero (d : nat) (sym : option str) :
  Amount.toUnit (Amount.mk 0 d sym) = lit "0".
Proof.
  pose proof (toUnit_digits (lit "0") (repeat "0"%char d) sym) as H.
  rewrite repeat_length in H.
  rewrite parse_digits_app, parse_digits_zeros in H.
  change (parse_digits (lit "0") * 10 ^ Z.of_nat d + 0) with (0 * 10 ^ Z.of_nat d + 0) in H.
  rewrite Z.mul_0_l in H. simpl Z.add in H.
  assert (Hr : replace_trailing_zeros (repeat "0"%char d) = []).
  { change (repeat "0"%char d) with ([] ++ repeat "0"%char d).
    now rewrite replace_trailing_zeros_pad. }
  rewrite H.
  - now rewrite Hr.
  - split; [discriminate | reflexivity].
  - apply forallb_repeat_zero.
Qed.

(** X2.  Among amounts of the same decimals whose base values are not
    negative, [toUnit()] is injective: equal strings mean equal base values.
    In particular such an amount prints as ["0"] exactly when [isZero()]. *)
Theorem toUnit_injective (a b : Amount.t) :
  Amount.getDecimals a = Amount.getDecimals b ->
  0 <= Amount.toBase a -> 0 <= Amount.toBase b ->
  (Amount.toUnit a = Amount.toUnit b -> Amount.toBase a = Amount.toBase b)
  /\ (Amount.toUnit a = lit "0" <-> Amount.isZero a = true).
Proof.
  intros Hd Ha Hb.
  assert (Hinj : forall x y : Amount.t,
            Amount.decimals x = Amount.decimals y ->
            0 <= Amount.baseValue x -> 0 <= Amount.baseValue y ->
            Amount.toUnit x = Amount.toUnit y ->
            Amount.baseValue x = Amount.baseValue y).
  { intros x y Hxy Hx Hy Heq.
    pose proof (fromUnit_of_toUnit
                  (Amount.mk (Amount.baseValue x) (Amount.decimals x) None) Hx)
      as Fx.
    pose proof (fromUnit_of_toUnit
                  (Amount.mk (Amount.baseValue y) (Amount.decimals y) None) Hy)
      as Fy.
    assert (Hux : forall z s, Amount.toUnit (Amount.mk (Amount.baseValue z)
                                               (Amount.decimals z) s)
                              = Amount.toUnit z) by (intros [] ?; reflexivity).
    rewrite Hux in Fx, Fy. cbn [Amount.decimals Amount.symbol] in Fx, Fy.
    rewrite Heq, Hxy, Fy in Fx. now injection Fx. }
  split; [now apply Hinj |].
  unfold Amount.isZero. rewrite Z.eqb_eq. split.
  - intros Hz.
    rewrite <- (toUnit_zero (Amount.decimals a) None) in Hz.
    apply Hinj in Hz; [exact Hz | reflexivity | exact Ha | simpl; lia].
  - intros Hz. destruct a as [n d sym]. simpl in Hz. subst n.
    apply toUnit_zero.
Qed.

Lemma toUnit_injective_witness :
  Amount.toUnit (Amount.mk 0 6 (Some (lit "USDC"))) = lit "0"
  /\ Amount.isZero (Amount.mk 0 6 (Some (lit "USDC"))) = true.
Proof.
  destruct (toUnit_injective (Amount.mk 0 6 (Some (lit "USDC")))
              (Amount.mk 7 6 None) eq_refl)
    as [_ Hzero].
  - unfold Amount.toBase. simpl. lia.
  - unfold Amount.toBase. simpl. lia.
  - split; [apply Hzero |]; reflexivity.
Defined.

Lemma numeral_chars (s : str) :
  matches NUMERAL s = true ->
  forall c, In c s -> is_digit c = true \/ is_dot c = true.
Proof.
  intros Hm c Hin. apply matches_NUMERAL in Hm.
  destruct Hm as (i & f & Hs).
  destruct Hs as [i [_ Hi] | i f [_ Hi] [_ Hf]].
  - left. rewrite forallb_forall in Hi. now apply Hi.
  - rewrite forallb_forall in Hi, Hf.
    apply in_app_or in Hin. destruct Hin as [Hin | [<- | Hin]].
    + left. now apply Hi.
    + now right.
    + left. now apply Hf.
Qed.

Lemma in_drop_zeros (c : ascii) (s : str) :
  In c s -> is_zero_char c = false -> In c (drop_zeros s).
Proof.
  induction s as [| x s IH]; simpl; [tauto |].
  intros [-> | Hin] Hc.
  - rewrite Hc. now left.
  - destruct (is_zero_char x); [now apply IH | now right].
Qed.

Lemma minus_in_toUnit (a : Amount.t) :
  Amount.baseValue a < 0 -> In "-"%char (Amount.toUnit a).
Proof.
  intros Hn. destruct a as [n d sym]. simpl in Hn.
  unfold Amount.toUnit. cbn [Amount.decimals Amount.baseValue].
  assert (Hts : In "-"%char (BigInt_toString n)).
  { unfold BigInt_toString. destruct (Z.ltb_spec n 0); [now left | lia]. }
  destruct (Nat.eqb_spec d 0) as [-> | Hd]; [exact Hts |].
  set (p := padStart (BigInt_toString n) (d + 1) "0").
  assert (Hp : In "-"%char p).
  { unfold p, padStart. apply in_or_app. now right. }
  rewrite slice_drop_last, slice_keep_last by lia.
  rewrite <- (firstn_skipn (length p - d) p) in Hp.
  apply in_app_or in Hp.
  set (fp := skipn (length p - d) p) in *.
  assert (Hkeep : In "-"%char fp -> In "-"%char (replace_trailing_zeros fp)).
  { intros H. unfold replace_trailing_zeros. apply in_rev.
    rewrite rev_involutive. apply in_drop_zeros; [| reflexivity].
    now apply in_rev in H. }
  destruct (replace_trailing_zeros fp) as [| c cf] eqn:E.
  - destruct Hp as [Hp | Hp]; [exact Hp |]. destruct (Hkeep Hp).
  - apply in_or_app. destruct Hp as [Hp | Hp]; [now left |].
    right. right. now apply Hkeep.
Qed.

(** X3.  An amount with a negative base value does not print back: its
    [toUnit()] contains a minus sign, which [fromUnit] rejects as an invalid
    unit amount whatever the decimals. *)
Theorem negative_toUnit_rejected (a : Amount.t) (d : nat) (sym : option str) :
  Amount.toBase a < 0 ->
  In "-"%char (Amount.toUnit a)
  /\ Amount.fromUnit (Amount.InString (Amount.toUnit a)) d sym
     = Throws (Amount.InvalidUnitAmount (Amount.toUnit a)).
Proof.
  intros Hn. pose proof (minus_in_toUnit a Hn) as Hin.
  split; [exact Hin |].
  apply fromUnit_invalid.
  destruct (matches NUMERAL (Amount.toUnit a)) eqn:Hm; [| reflexivity].
  destruct (numeral_chars _ Hm _ Hin) as [H | H]; discriminate H.
Qed.

Lemma negative_toUnit_rejected_witness :
  Amount.toBase (Amount.mk (-5) 2 None) < 0
  /\ Amount.toUnit (Amount.mk (-5) 2 None) = lit "0.-5"
  /\ Amount.fromUnit (Amount.InString (lit "0.-5")) 2 None
     = Throws (Amount.InvalidUnitAmount (lit "0.-5")).
Proof.
  assert (Hn : Amount.toBase (Amount.mk (-5) 2 None) < 0)
    by (unfold Amount.toBase; simpl; lia).
  split; [exact Hn |]. split; [vm_compute; reflexivity |].
  exact (proj2 (negative_toUnit_rejected (Amount.mk (-5) 2 None) 2 None Hn)).
Defined.

End PrintClaims.

(* ------------------------------------------------------------------ *)
(** ** Further properties of [Amount]: exactness and arithmetic         *)
(* ------------------------------------------------------------------ *)

Section ArithmeticFacts.
Import JS.
Open Scope Z_scope.

Lemma padded_value (i f : str) (d : nat) :
  (length f <= d)%nat ->
  parse_digits (i ++ padEnd f d "0")
  = parse_digits (i ++ f) * 10 ^ Z.of_nat (d - length f).
Proof.
  intros _. unfold padEnd.
  rewrite app_assoc, parse_digits_app, parse_digits_zeros, repeat_length.
  ring.
Qed.

Lemma pow10_merge (d l : nat) :
  (l <= d)%nat ->
  10 ^ Z.of_nat (d - l) * 10 ^ Z.of_nat l = 10 ^ Z.of_nat d.
Proof.
  intros H. rewrite <- pow10_split. f_equal. f_equal. lia.
Qed.

Lemma add_returns (a b : Amount.t) :
  Amount.isCompatible a b = true ->
  Amount.add a b
  = Returns (Amount.mk (Amount.baseValue a + Amount.baseValue b)
               (Amount.decimals a)
               (Amount.nullish (Amount.symbol a) (Amount.symbol b))).
Proof.
  intros Hc. unfold Amount.add.
  now rewrite (assertCompatible_isCompatible a b Hc).
Qed.

Lemma subtract_returns (a b : Amount.t) :
  Amount.isCompatible a b = true ->
  Amount.subtract a b
  = Returns (Amount.mk (Amount.baseValue a - Amount.baseValue b)
               (Amount.decimals a)
               (Amount.nullish (Amount.symbol a) (Amount.symbol b))).
Proof.
  intros Hc. unfold Amount.subtract.
  now rewrite (assertCompatible_isCompatible a b Hc).
Qed.

Lemma str_eqb_refl (s : str) : str_eqb s s = true.
Proof. now apply str_eqb_eq. Qed.

(** What [assertCompatible] throws. *)
Lemma assertCompatible_throws (a b : Amount.t) :
  Amount.isCompatible a b = false ->
  (Amount.decimals a <> Amount.decimals b
   /\ Amount.assertCompatible a b
      = Throws (Amount.DifferentDecimals (Amount.decimals a)
                  (Amount.decimals b)))
  \/ (Amount.decimals a = Amount.decimals b
      /\ exists s1 s2,
           Amount.symbol a = Some s1 /\ Amount.symbol b = Some s2
           /\ s1 <> s2
           /\ Amount.assertCompatible a b
              = Throws (Amount.DifferentSymbols s1 s2)).
Proof.
  unfold Amount.isCompatible, Amount.assertCompatible, Amount.symbols_differ.
  destruct (Nat.eqb_spec (Amount.decimals a) (Amount.decimals b)) as [He | Hne];
    simpl.
  - intros H. right. split; [assumption |].
    destruct (Amount.symbol a) as [s1 |], (Amount.symbol b) as [s2 |];
      try discriminate.
    destruct (str_eqb s1 s2) eqn:E; simpl in *; [discriminate |].
    exists s1, s2. repeat split.
    intros ->. rewrite str_eqb_refl in E. discriminate.
  - intros _. left. now split.
Qed.

End ArithmeticFacts.

Section ArithmeticExtras.
Import JS.
Open Scope Z_scope.

(** X4.  [fromUnit] is exact: the base value of [fromUnit(s, decimals)] is
    the rational value of the numeral [s] times [10^decimals], and two
    numerals give the same amount exactly when they denote the same
    number. *)
Theorem fromUnit_exact (s1 i1 f1 s2 i2 f2 : str) (d : nat) (sym : option str) :
  Spec.numeral_shape s1 i1 f1 -> Spec.numeral_shape s2 i2 f2 ->
  (length f1 <= d)%nat -> (length f2 <= d)%nat ->
  (exists a, Amount.fromUnit (Amount.InString s1) d sym = Returns a
             /\ (inject_Z (Amount.toBase a)
                 == Spec.numeral_value i1 f1 * inject_Z (10 ^ Z.of_nat d))%Q)
  /\ (Amount.fromUnit (Amount.InString s1) d sym
      = Amount.fromUnit (Amount.InString s2) d sym
      <-> (Spec.numeral_value i1 f1 == Spec.numeral_value i2 f2)%Q).
Proof.
  intros H1 H2 L1 L2.
  rewrite (fromUnit_accepts s1 i1 f1 d sym H1 L1).
  rewrite (fromUnit_accepts s2 i2 f2 d sym H2 L2).
  rewrite !padded_value by assumption.
  pose proof (pow10_merge d (length f1) L1) as M1.
  pose proof (pow10_merge d (length f2) L2) as M2.
  pose proof (pow10_pos d) as Pd.
  pose proof (pow10_pos (length f1)) as P1.
  pose proof (pow10_pos (length f2)) as P2.
  unfold Spec.numeral_value, Qeq, Qmult, inject_Z. cbn [Qnum Qden].
  rewrite ?Pos.mul_1_r, !Z2Pos.id by assumption.
  set (p1 := parse_digits (i1 ++ f1)) in *.
  set (p2 := parse_digits (i2 ++ f2)) in *.
  set (A := 10 ^ Z.of_nat (d - length f1)) in *.
  set (B := 10 ^ Z.of_nat (length f1)) in *.
  set (C := 10 ^ Z.of_nat (d - length f2)) in *.
  set (D := 10 ^ Z.of_nat (length f2)) in *.
  set (E := 10 ^ Z.of_nat d) in *.
  split.
  - eexists. split; [reflexivity |]. unfold Amount.toBase. simpl.
    rewrite <- M1. ring.
  - split.
    + intros [= Heq].
      apply (Z.mul_cancel_l _ _ E); [lia |].
      transitivity (p1 * A * (B * D)); [rewrite <- M1; ring |].
      rewrite Heq, <- M2. ring.
    + intros Heq. do 2 f_equal.
      apply (Z.mul_cancel_r _ _ (B * D)); [lia |].
      transitivity (p1 * D * (A * B)); [ring |].
      rewrite Heq, M1, <- M2. ring.
Qed.

Lemma fromUnit_exact_witness :
  Amount.fromUnit (Amount.InString (lit "1.5")) 6 None
  = Amount.fromUnit (Amount.InString (lit "01.500")) 6 None.
Proof.
  refine (proj2 (proj2 (fromUnit_exact (lit "1.5") (lit "1") (lit "5")
                   (lit "01.500") (lit "01") (lit "500") 6 None _ _ _ _)) _).
  - apply (Spec.shape_fraction (lit "1") (lit "5"));
      (split; [discriminate | reflexivity]).
  - apply (Spec.shape_fraction (lit "01") (lit "500"));
      (split; [discriminate | reflexivity]).
  - simpl. lia.
  - simpl. lia.
  - reflexivity.
Defined.

(** X5.  Addition of compatible amounts commutes, symbol included.  The
    base value of the sum is the sum of the base values, its decimals are
    the operands', and it carries the symbol of whichever operand has one:
    its symbol is [s] exactly when an operand's symbol is [s], so it is
    unset only when both operands' are. *)
Theorem add_commutes (a b : Amount.t) :
  Spec.compatible a b ->
  Amount.add a b = Amount.add b a
  /\ exists r, Amount.add a b = Returns r
               /\ Amount.toBase r = Amount.toBase a + Amount.toBase b
               /\ Amount.getDecimals r = Amount.getDecimals a
               /\ (forall s, Amount.getSymbol r = Some s
                             <-> Amount.getSymbol a = Some s
                                 \/ Amount.getSymbol b = Some s)
               /\ (Amount.getSymbol r = None
                   <-> Amount.getSymbol a = None
                       /\ Amount.getSymbol b = None)
               /\ (Amount.getSymbol a = None ->
                   Amount.getSymbol r = Amount.getSymbol b)
               /\ (Amount.getSymbol b = None ->
                   Amount.getSymbol r = Amount.getSymbol a).
Proof.
  intros Hc. pose proof Hc as [Hd Hsym].
  apply isCompatible_true_iff in Hc.
  pose proof Hc as Hc'. rewrite isCompatible_sym in Hc'.
  rewrite (add_returns a b Hc), (add_returns b a Hc').
  split.
  - rewrite Hd, Z.add_comm. f_equal. f_equal.
    destruct (Amount.symbol a) as [x |], (Amount.symbol b) as [y |];
      simpl; try reflexivity.
    destruct Hsym as [H | [H | H]]; congruence.
  - eexists. split; [reflexivity |].
    unfold Amount.toBase, Amount.getDecimals, Amount.getSymbol.
    cbn [Amount.baseValue Amount.decimals Amount.symbol].
    split; [reflexivity |]. split; [reflexivity |].
    assert (Hsame : forall x y,
              Amount.symbol a = Some x -> Amount.symbol b = Some y -> x = y)
      by (intros x y Ha Hb; destruct Hsym as [H | [H | H]]; congruence).
    destruct (Amount.symbol a) as [x |], (Amount.symbol b) as [y |];
      cbn [Amount.nullish];
      try (pose proof (Hsame x y eq_refl eq_refl) as <-);
      (split; [intros s; intuition congruence |]);
      (split; [intuition congruence |]);
      split; intros; congruence.
Qed.

Lemma add_commutes_witness :
  Amount.add (Amount.mk 15 1 (Some (lit "ETH"))) (Amount.mk 25 1 None)
  = Amount.add (Amount.mk 25 1 None) (Amount.mk 15 1 (Some (lit "ETH")))
  /\ exists r,
       Amount.add (Amount.mk 15 1 (Some (lit "ETH")))
         (Amount.mk 25 1 (Some (lit "ETH")))
       = Returns r
       /\ Amount.getSymbol r = Some (lit "ETH").
Proof.
  split.
  - refine (proj1 (add_commutes (Amount.mk 15 1 (Some (lit "ETH")))
                     (Amount.mk 25 1 None) _)).
    split; [reflexivity | right; left; reflexivity].
  - destruct (add_commutes (Amount.mk 15 1 (Some (lit "ETH")))
                (Amount.mk 25 1 (Some (lit "ETH"))))
      as (_ & r & Hadd & _ & _ & Hsym & _);
      [split; [| right; right]; reflexivity |].
    exists r. split; [exact Hadd |].
    apply Hsym. left. reflexivity.
Defined.

(** X6.  Adding and then subtracting the same compatible amount gives the
    base value back: [a.add(b).subtract(b)] succeeds and is [eq] to [a]. *)
Theorem add_subtract_cancel (a b : Amount.t) :
  Spec.compatible a b ->
  exists s r,
    Amount.add a b = Returns s
    /\ Amount.subtract s b = Returns r
    /\ Amount.toBase r = Amount.toBase a
    /\ Amount.eq r a = true.
Proof.
  intros Hc. pose proof Hc as [Hd Hsym].
  apply isCompatible_true_iff in Hc.
  rewrite (add_returns a b Hc).
  set (s := Amount.mk (Amount.baseValue a + Amount.baseValue b)
              (Amount.decimals a)
              (Amount.nullish (Amount.symbol a) (Amount.symbol b))).
  assert (Hsb : Amount.isCompatible s b = true).
  { apply isCompatible_true_iff. split; [exact Hd |]. simpl.
    destruct (Amount.symbol a) as [x |], (Amount.symbol b) as [y |];
      simpl; auto. }
  exists s. eexists. split; [reflexivity |].
  rewrite (subtract_returns s b Hsb).
  split; [reflexivity |]. unfold Amount.toBase. simpl.
  split; [lia |].
  unfold Amount.eq.
  match goal with |- context [Amount.isCompatible ?x a] =>
    assert (Hra : Amount.isCompatible x a = true) end.
  { apply isCompatible_true_iff. split; [reflexivity |]. simpl.
    destruct (Amount.symbol a) as [x |], (Amount.symbol b) as [y |];
      simpl; auto. }
  rewrite Hra. simpl. apply Z.eqb_eq. lia.
Qed.

Lemma add_subtract_cancel_witness :
  exists s r,
    Amount.add (Amount.mk 15 1 None) (Amount.mk 25 1 (Some (lit "ETH")))
    = Returns s
    /\ Amount.subtract s (Amount.mk 25 1 (Some (lit "ETH"))) = Returns r
    /\ Amount.toBase r = Amount.toBase (Amount.mk 15 1 None)
    /\ Amount.eq r (Amount.mk 15 1 None) = true.
Proof.
  apply (add_subtract_cancel (Amount.mk 15 1 None)
           (Amount.mk 25 1 (Some (lit "ETH")))).
  split; [reflexivity | left; reflexivity].
Defined.

(** X7.  [add] and [subtract] throw exactly on the pairs for which the
    comparisons answer false for incompatibility: a difference of decimals
    is reported first, and a difference of symbols only when the decimals
    agree. *)
Theorem arithmetic_throws_iff_incompatible (a b : Amount.t) :
  returned (Amount.add a b) = Amount.isCompatible a b
  /\ returned (Amount.subtract a b) = Amount.isCompatible a b
  /\ (Amount.getDecimals a <> Amount.getDecimals b ->
      Amount.add a b
      = Throws (Amount.DifferentDecimals (Amount.getDecimals a)
                  (Amount.getDecimals b))
      /\ Amount.subtract a b
         = Throws (Amount.DifferentDecimals (Amount.getDecimals a)
                     (Amount.getDecimals b)))
  /\ (forall s1 s2,
        Amount.getDecimals a = Amount.getDecimals b ->
        Amount.getSymbol a = Some s1 -> Amount.getSymbol b = Some s2 ->
        s1 <> s2 ->
        Amount.add a b = Throws (Amount.DifferentSymbols s1 s2)
        /\ Amount.subtract a b = Throws (Amount.DifferentSymbols s1 s2)).
Proof.
  unfold Amount.getDecimals, Amount.getSymbol.
  destruct (Amount.isCompatible a b) eqn:Hc.
  - rewrite (add_returns a b Hc), (subtract_returns a b Hc).
    apply isCompatible_true_iff in Hc. destruct Hc as [Hd Hsym].
    split; [reflexivity |]. split; [reflexivity |]. split.
    + intros Hne. contradiction.
    + intros s1 s2 _ Ha Hb Hne. rewrite Ha, Hb in Hsym.
      destruct Hsym as [H | [H | H]]; congruence.
  - unfold Amount.add, Amount.subtract.
    destruct (assertCompatible_throws a b Hc)
      as [[Hne ->] | (He & s1 & s2 & Ha & Hb & Hne & ->)]; simpl.
    + split; [reflexivity |]. split; [reflexivity |]. split.
      * now intros _.
      * intros ? ? He. contradiction.
    + split; [reflexivity |]. split; [reflexivity |]. split.
      * intros Hd. contradiction.
      * intros t1 t2 _ Ha' Hb' _.
        rewrite Ha in Ha'. rewrite Hb in Hb'.
        injection Ha' as <-. injection Hb' as <-. now split.
Qed.

(** X8.  The comparisons mirror each other ([a.lt(b)] is [b.gt(a)],
    [a.lte(b)] is [b.gte(a)]), [gte] is [gt] or [eq] and [lte] is [lt] or
    [eq], and no two of [lt], [eq], [gt] hold together.  One of the three
    holds exactly when the amounts are compatible, so [a.gte(b)] is the
    negation of [a.lt(b)] on compatible amounts only. *)
Theorem comparison_laws (a b : Amount.t) :
  Amount.lt a b = Amount.gt b a
  /\ Amount.lte a b = Amount.gte b a
  /\ Amount.gte a b = Amount.gt a b || Amount.eq a b
  /\ Amount.lte a b = Amount.lt a b || Amount.eq a b
  /\ Amount.lt a b && Amount.gt a b = false
  /\ Amount.lt a b && Amount.eq a b = false
  /\ Amount.gt a b && Amount.eq a b = false
  /\ Amount.lt a b || Amount.eq a b || Amount.gt a b = Amount.isCompatible a b
  /\ (Amount.gte a b = negb (Amount.lt a b)
      <-> Amount.isCompatible a b = true).
Proof.
  unfold Amount.lt, Amount.gt, Amount.lte, Amount.gte, Amount.eq.
  rewrite (isCompatible_sym b a).
  destruct (Amount.isCompatible a b); simpl.
  - set (x := Amount.baseValue a). set (y := Amount.baseValue b).
    rewrite Z.gtb_ltb, Z.geb_leb, (Z.gtb_ltb x y), (Z.geb_leb x y).
    destruct (Z.ltb_spec x y), (Z.ltb_spec y x), (Z.leb_spec x y),
      (Z.leb_spec y x), (Z.eqb_spec x y); try lia; simpl;
      repeat split; auto; discriminate.
  - repeat split; auto; discriminate.
Qed.

End ArithmeticExtras.

Section ScalarExtras.
Import JS.
Open Scope Z_scope.

Lemma scaled18_integer (k : str) :
  Spec.scaled18 k [] = parse_digits k * 10 ^ 18.
Proof.
  rewrite scaled18_integer_form, app_nil_r. simpl length.
  change (10 ^ Z.of_nat 0) with 1. apply Z.div_1_r.
Qed.

(** With at most 18 fractional digits nothing is cut off the scalar. *)
Lemma scaled18_short (i f : str) :
  (length f <= 18)%nat ->
  Spec.scaled18 i f
  = parse_digits (i ++ f) * 10 ^ Z.of_nat (18 - length f).
Proof.
  intros Hle. rewrite scaled18_integer_form.
  change (10 ^ 18) with (10 ^ Z.of_nat 18).
  rewrite <- (pow10_merge 18 (length f) Hle), Z.mul_assoc.
  apply Z.div_mul. pose proof (pow10_pos (length f)). lia.
Qed.

(** X9.  Whole-number scalars are exact: [multiply] by a string of digits
    [k] multiplies the base value by the number [k] denotes, for negative
    amounts too; when that number is positive [a.multiply(k).divide(k)] is
    [a] again, and when it is zero [divide] throws "Division by zero". *)
Theorem multiply_divide_integer (a : Amount.t) (k : str) :
  Spec.digits k ->
  Amount.multiply a (Amount.InString k)
  = Returns (Amount.mk (Amount.toBase a * parse_digits k)
               (Amount.getDecimals a) (Amount.getSymbol a))
  /\ (0 < parse_digits k ->
      Amount.bind (Amount.multiply a (Amount.InString k))
        (fun m => Amount.divide m (Amount.InString k))
      = Returns a)
  /\ (parse_digits k = 0 ->
      Amount.divide a (Amount.InString k) = Throws Amount.DivisionByZero).
Proof.
  intros Hk.
  assert (Hs : Spec.numeral_shape k k []) by now constructor.
  assert (Hmul : Amount.multiply a (Amount.InString k)
                 = Returns (Amount.mk (Amount.toBase a * parse_digits k)
                              (Amount.getDecimals a) (Amount.getSymbol a))).
  { rewrite (multiply_shape a k k [] Hs), scaled18_integer.
    unfold Amount.toBase. rewrite Z.mul_assoc, Z.quot_mul by lia.
    reflexivity. }
  split; [exact Hmul | split].
  - intros Hpos. rewrite Hmul. unfold Amount.bind.
    rewrite (divide_shape _ k k [] Hs), scaled18_integer.
    destruct (Z.eqb_spec (parse_digits k * 10 ^ 18) 0) as [Hz | _]; [lia |].
    cbn [Amount.baseValue Amount.decimals Amount.symbol].
    unfold Amount.toBase, Amount.getDecimals, Amount.getSymbol.
    rewrite <- Z.mul_assoc, Z.quot_mul by lia.
    now destruct a.
  - intros Hz. rewrite (divide_shape a k k [] Hs), scaled18_integer, Hz.
    reflexivity.
Qed.

Lemma multiply_divide_integer_witness :
  Spec.digits (lit "3")
  /\ Amount.bind (Amount.multiply (Amount.mk (-7) 6 None)
                    (Amount.InString (lit "3")))
       (fun m => Amount.divide m (Amount.InString (lit "3")))
     = Returns (Amount.mk (-7) 6 None).
Proof.
  assert (Hk : Spec.digits (lit "3")) by (split; [discriminate | reflexivity]).
  split; [exact Hk |].
  refine (proj1 (proj2 (multiply_divide_integer (Amount.mk (-7) 6 None)
                          (lit "3") Hk)) _).
  vm_compute. reflexivity.
Defined.

(** X10.  On an amount that is not negative, [multiply] by a scalar with at
    most 18 fractional digits returns the floor of the exact product of
    the base value and the scalar. *)
Theorem multiply_floor_of_product (a : Amount.t) (s i f : str) :
  Spec.numeral_shape s i f -> (length f <= 18)%nat ->
  0 <= Amount.toBase a ->
  Amount.multiply a (Amount.InString s)
  = Returns (Amount.mk
               (Qfloor (inject_Z (Amount.toBase a) * Spec.numeral_value i f))
               (Amount.getDecimals a) (Amount.getSymbol a)).
Proof.
  intros Hs Hle Hn.
  rewrite (multiply_shape a s i f Hs), (scaled18_short i f Hle).
  unfold Amount.toBase in *. do 2 f_equal.
  pose proof (parse_digits_bounds (i ++ f)) as Hb.
  rewrite forallb_app in Hb.
  destruct (shape_integer_digits s i f Hs) as [_ Hi].
  rewrite Hi, (shape_fraction_digits s i f Hs) in Hb.
  specialize (Hb eq_refl).
  pose proof (pow10_pos (18 - length f)) as Pk.
  pose proof (pow10_pos (length f)) as Pf.
  rewrite Z.quot_div_nonneg by (try nia; lia).
  unfold Spec.numeral_value, Qfloor, Qmult, inject_Z. cbn [Qnum Qden].
  rewrite Pos.mul_1_l, Z2Pos.id by assumption.
  change (10 ^ 18) with (10 ^ Z.of_nat 18).
  rewrite <- (pow10_merge 18 (length f) Hle), Z.mul_assoc.
  rewrite (Z.mul_comm (10 ^ Z.of_nat (18 - length f))
             (10 ^ Z.of_nat (length f))).
  apply Z.div_mul_cancel_r; lia.
Qed.

Lemma multiply_floor_of_product_witness :
  Amount.multiply (Amount.mk 7 0 None) (Amount.InString (lit "0.5"))
  = Returns (Amount.mk 3 0 None).
Proof.
  refine (multiply_floor_of_product (Amount.mk 7 0 None) (lit "0.5")
            (lit "0") (lit "5") _ _ _).
  - apply (Spec.shape_fraction (lit "0") (lit "5"));
      (split; [discriminate | reflexivity]).
  - simpl. lia.
  - unfold Amount.toBase. simpl. lia.
Defined.

(** X11.  [divide] throws "Division by zero" exactly when the divisor is
    smaller than [10^-18], so also for positive divisors below that; for
    every other accepted divisor it returns. *)
Theorem divide_throws_below_precision (a : Amount.t) (s i f : str) :
  Spec.numeral_shape s i f ->
  (Amount.divide a (Amount.InString s) = Throws Amount.DivisionByZero
   <-> (Spec.numeral_value i f < Spec.smallest_scaled_unit)%Q)
  /\ (returned (Amount.divide a (Amount.InString s)) = true
      <-> (Spec.smallest_scaled_unit <= Spec.numeral_value i f)%Q).
Proof.
  intros Hs. rewrite (divide_shape a s i f Hs), scaled18_integer_form.
  pose proof (parse_digits_bounds (i ++ f)) as Hb.
  rewrite forallb_app in Hb.
  destruct (shape_integer_digits s i f Hs) as [_ Hi].
  rewrite Hi, (shape_fraction_digits s i f Hs) in Hb.
  specialize (Hb eq_refl).
  pose proof (pow10_pos (length f)) as Pf.
  unfold Spec.numeral_value, Spec.smallest_scaled_unit, Qlt, Qle.
  cbn [Qnum Qden].
  rewrite !Z2Pos.id by (assumption || reflexivity).
  set (p := parse_digits (i ++ f)) in *.
  set (P := 10 ^ Z.of_nat (length f)) in *.
  assert (Hp : 0 <= p) by lia. clearbody p P. clear Hb.
  set (T := 10 ^ 18) in *. assert (HT : 0 < T) by reflexivity. clearbody T.
  assert (Hiff : p * T / P = 0 <-> p * T < 1 * P).
  { rewrite Z.div_small_iff by lia. nia. }
  destruct (Z.eqb_spec (p * T / P) 0) as [Hz | Hnz]; cbn [returned].
  - split.
    + split; [intros _; now apply Hiff | reflexivity].
    + split; [discriminate |]. intros H. apply Hiff in Hz. lia.
  - split.
    + split; [discriminate |]. intros H. apply Hiff in H. contradiction.
    + split; [| reflexivity]. intros _.
      destruct (Z.lt_ge_cases (p * T) (1 * P)) as [H | H]; [| lia].
      apply Hiff in H. contradiction.
Qed.

Lemma divide_throws_below_precision_witness :
  Amount.divide (Amount.mk 5 0 None)
    (Amount.InString (lit "0.0000000000000000009"))
  = Throws Amount.DivisionByZero.
Proof.
  refine (proj2 (proj1 (divide_throws_below_precision (Amount.mk 5 0 None)
                          (lit "0.0000000000000000009") (lit "0")
                          (lit "0000000000000000009") _)) _).
  - apply (Spec.shape_fraction (lit "0") (lit "0000000000000000009"));
      (split; [discriminate | reflexivity]).
  - vm_compute. reflexivity.
Defined.

End ScalarExtras.

(* ------------------------------------------------------------------ *)
(** ** Further properties: token amounts                                *)
(* ------------------------------------------------------------------ *)

Section TokenExtras.
Import JS.
Open Scope Z_scope.

Lemma fromUnit_fields (x : Amount.AmountInput) (d : nat) (sym : option str)
    (a : Amount.t) :
  Amount.fromUnit x d sym = Returns a ->
  Amount.decimals a = d /\ Amount.symbol a = sym.
Proof.
  unfold Amount.fromUnit.
  destruct (negb (matches NUMERAL (Amount.input_toString x)));
    [discriminate |].
  destruct (d <? length (Amount.fraction_of (Amount.input_toString x)))%nat;
    [discriminate |].
  destruct (Amount.toBigInt _) as [b | e]; simpl; [| discriminate].
  intros [= <-]. now split.
Qed.

(** X12.  Amounts made with [fromTokenUnit] from one token are always
    compatible: they add without throwing, the sum keeps the token's
    decimals and symbol, and they compare by base value. *)
Theorem token_amounts_add (token : TokenAmount.Token)
    (x y : Amount.AmountInput) (a b : Amount.t) :
  TokenAmount.fromTokenUnit x token = Returns a ->
  TokenAmount.fromTokenUnit y token = Returns b ->
  Amount.add a b
  = Returns (Amount.mk (Amount.toBase a + Amount.toBase b)
               (TokenAmount.decimals token)
               (Some (TokenAmount.symbol token)))
  /\ Amount.lt a b = (Amount.toBase a <? Amount.toBase b)
  /\ Amount.eq a b = (Amount.toBase a =? Amount.toBase b).
Proof.
  unfold TokenAmount.fromTokenUnit. intros Ha Hb.
  destruct (fromUnit_fields _ _ _ _ Ha) as [Da Sa].
  destruct (fromUnit_fields _ _ _ _ Hb) as [Db Sb].
  assert (Hc : Amount.isCompatible a b = true).
  { apply isCompatible_true_iff. split; [congruence |].
    right. right. congruence. }
  rewrite (add_returns a b Hc), Da, Sa.
  unfold Amount.lt, Amount.eq. rewrite Hc. now repeat split.
Qed.

Lemma token_amounts_add_witness :
  Amount.add (Amount.mk 1500000000000000000 18 (Some (lit "STRK")))
             (Amount.mk 2500000000000000000 18 (Some (lit "STRK")))
  = Returns (Amount.mk 4000000000000000000 18 (Some (lit "STRK"))).
Proof.
  refine (proj1 (token_amounts_add Scenarios.strk
                   (Amount.InString (lit "1.5")) (Amount.InString (lit "2.5"))
                   (Amount.mk 1500000000000000000 18 (Some (lit "STRK")))
                   (Amount.mk 2500000000000000000 18 (Some (lit "STRK")))
                   _ _)); vm_compute; reflexivity.
Defined.

End TokenExtras.

(* ------------------------------------------------------------------ *)
(** ** Further properties of the wallet                                 *)
(* ------------------------------------------------------------------ *)

Section WalletExtras.
Import JS Wallet.

(** X13.  [Wallet.create] refuses a sponsored default fee mode without a
    sponsor before deriving the address, and a wallet it returns has the
    derived address, the sponsor of its configuration, and a sponsor
    whenever its default fee mode is sponsored. *)
Theorem create_sponsor_invariant (env : Env) (config : SDKConfig)
    (feeMode : option FeeMode) (hint : option SponsorPolicyHint) :
  (nullish feeMode user_pays = sponsored -> cfg_sponsor config = None ->
   create env config feeMode hint
   = ([], Throws (ErrorObj (lit
        "Cannot use feeMode='sponsored' without configuring sponsor in SDKConfig"))))
  /\ (forall w, outcome (create env config feeMode hint) = Returns w ->
        trace (create env config feeMode hint) = [EvGetAddress]
        /\ getAddress env = Returns (address w)
        /\ sponsor w = cfg_sponsor config
        /\ defaultFeeMode w = nullish feeMode user_pays
        /\ defaultPolicyHint w = hint
        /\ (defaultFeeMode w = sponsored -> sponsor w <> None)).
Proof.
  unfold create. split.
  - intros -> ->. reflexivity.
  - intros w. cbv zeta.
    destruct (FeeMode_eqb (nullish feeMode user_pays) sponsored
              && is_none (cfg_sponsor config)) eqn:Hguard.
    + discriminate.
    + unfold call, bind, ret, new_Wallet, outcome, trace.
      destruct (getAddress env) as [addr | e]; simpl; [| discriminate].
      intros [= <-]. simpl. repeat split.
      intros Hmode Hnone. rewrite Hmode, Hnone in Hguard. discriminate.
Qed.

Lemma create_sponsor_invariant_witness :
  create Examples.undeployed_network Examples.plain_config (Some sponsored) None
  = ([], Throws (ErrorObj (lit
       "Cannot use feeMode='sponsored' without configuring sponsor in SDKConfig"))).
Proof.
  exact (proj1 (create_sponsor_invariant Examples.undeployed_network
                  Examples.plain_config (Some sponsored) None)
           eq_refl eq_refl).
Defined.

(** X14.  In [user_pays] mode, whether set per call or by default,
    [execute] never consults the sponsor: its only call to the outside is
    one submission of the given calls without fee details, and its outcome
    is the outcome of that submission. *)
Theorem execute_user_pays_skips_sponsor (env : Env) (w : Wallet.t)
    (cs : list Call) (options : ExecuteOptions) :
  nullish (ex_feeMode options) (defaultFeeMode w) = user_pays ->
  trace (execute env w cs options) = [EvExecute cs None]
  /\ Traces.sponsorship_requests (trace (execute env w cs options)) = []
  /\ outcome (execute env w cs options)
     = match account_execute env cs None with
       | Returns hash => Returns {| transaction_hash := hash |}
       | Throws e => Throws e
       end.
Proof.
  intros Hmode. unfold execute. rewrite Hmode. cbn [FeeMode_eqb].
  unfold call, bind, ret.
  destruct (account_execute env cs None); repeat split.
Qed.

Lemma execute_user_pays_skips_sponsor_witness :
  Traces.sponsorship_requests
    (trace (execute Examples.undeployed_network Examples.sponsored_wallet
              [Examples.test_call] Scenarios.user_pays_options)) = [].
Proof.
  exact (proj1 (proj2 (execute_user_pays_skips_sponsor
                         Examples.undeployed_network Examples.sponsored_wallet
                         [Examples.test_call] Scenarios.user_pays_options
                         eq_refl))).
Defined.

(** X15.  In sponsored mode with a sponsor configured, [execute] calls the
    sponsor exactly once, with the submitted calls, the wallet's address,
    the configured chain and the per-call policy hint or else the wallet's
    default one; when the sponsor answers, the calls are submitted once
    with the fee details of the answer. *)
Theorem execute_sponsored_wiring (env : Env) (w : Wallet.t)
    (sp : SponsorConfig) (cs : list Call) (options : ExecuteOptions) :
  sponsor w = Some sp ->
  nullish (ex_feeMode options) (defaultFeeMode w) = sponsored ->
  let request :=
    {| calls := cs;
       callerAddress := address w;
       chainId := cfg_chainId (config w);
       policyHint := nullish_opt (ex_sponsorPolicyHint options)
                       (defaultPolicyHint w) |} in
  Traces.sponsorship_requests (trace (execute env w cs options)) = [request]
  /\ (forall response,
        getSponsorship sp request = Returns response ->
        Traces.submissions (trace (execute env w cs options))
        = [EvExecute cs (Some (buildFeeOptions response))]
        /\ outcome (execute env w cs options)
           = match account_execute env cs (Some (buildFeeOptions response)) with
             | Returns hash => Returns {| transaction_hash := hash |}
             | Throws e => Throws e
             end)
  /\ (forall error,
        getSponsorship sp request = Throws error ->
        Traces.submissions (trace (execute env w cs options)) = []).
Proof.
  intros Hsp Hmode request. unfold execute. rewrite Hmode.
  cbn [FeeMode_eqb]. rewrite (requestSponsorship_run w sp cs _ Hsp).
  cbv zeta. fold request. unfold call, bind, ret.
  destruct (getSponsorship sp request) as [resp | e].
  - destruct (account_execute env cs (Some (buildFeeOptions resp))) eqn:Hx;
      (split; [reflexivity |]); (split; [| intros ? [=]]);
      intros response [= <-]; rewrite Hx; split; reflexivity.
  - split; [reflexivity |]. split; [intros ? [=] | reflexivity].
Qed.

Lemma execute_sponsored_wiring_witness :
  Traces.sponsorship_requests
    (trace (execute Examples.undeployed_network Scenarios.covered_wallet
              [Examples.test_call] Examples.default_execute_options))
  = [ {| calls := [Examples.test_call];
         callerAddress := lit "0x1";
         chainId := lit "SN_SEPOLIA";
         policyHint := Some Scenarios.onboarding |} ].
Proof.
  exact (proj1 (execute_sponsored_wiring Examples.undeployed_network
                  Scenarios.covered_wallet Scenarios.generous
                  [Examples.test_call] Examples.default_execute_options
                  eq_refl eq_refl)).
Defined.

(** X16.  Without a sponsor, sponsored mode submits nothing: [execute]
    fails with the configuration error before any call to the outside, and
    [deploy] fails with it after reading the public key, without calling
    [deployAccount]. *)
Theorem sponsored_mode_needs_sponsor (env : Env) (w : Wallet.t) :
  sponsor w = None ->
  (forall cs options,
     nullish (ex_feeMode options) (defaultFeeMode w) = sponsored ->
     execute env w cs options
     = ([], Throws (ErrorObj (lit
          "Sponsor not configured. Set sponsor in SDKConfig to use feeMode='sponsored'"))))
  /\ (forall options publicKey,
        nullish (dep_feeMode options) (defaultFeeMode w) = sponsored ->
        getPublicKey env = Returns publicKey ->
        deploy env w options
        = ([EvDeploy; EvGetPublicKey],
           Throws (ErrorObj (lit
             "Sponsor not configured. Set sponsor in SDKConfig to use feeMode='sponsored'")))).
Proof.
  intros Hsp. split.
  - intros cs options Hmode. unfold execute, requestSponsorship.
    rewrite Hmode, Hsp. reflexivity.
  - intros options pk Hmode Hpk. unfold deploy, requestSponsorship.
    rewrite Hmode, Hsp, Hpk. reflexivity.
Qed.

Lemma sponsored_mode_needs_sponsor_witness :
  execute Examples.undeployed_network Scenarios.unbacked_wallet
    [Examples.test_call] Examples.default_execute_options
  = ([], Throws (ErrorObj (lit
       "Sponsor not configured. Set sponsor in SDKConfig to use feeMode='sponsored'"))).
Proof.
  exact (proj1 (sponsored_mode_needs_sponsor Examples.undeployed_network
                  Scenarios.unbacked_wallet eq_refl)
           [Examples.test_call] Examples.default_execute_options eq_refl).
Defined.

End WalletExtras.

Section DeployPreflightExtras.
Import JS Wallet.

(** X17.  Whatever the fee mode, a deployment that [deploy] submits is
    built from the account provider: its salt is the public key, its class
    hash and constructor calldata are the provider's for that key; in
    [user_pays] mode it carries no fee details.  [deploy] submits at most
    once, and not at all when the public key cannot be read. *)
Theorem deploy_payload_from_provider (env : Env) (w : Wallet.t)
    (options : DeployOptions) :
  (forall payload,
     In (EvDeployAccount payload) (trace (deploy env w options)) ->
     getPublicKey env = Returns (addressSalt payload)
     /\ classHash payload = getClassHash env
     /\ constructorCalldata payload
        = getConstructorCalldata env (addressSalt payload)
     /\ (nullish (dep_feeMode options) (defaultFeeMode w) = user_pays ->
         feeOptions payload = no_details))
  /\ (length (Traces.submissions (trace (deploy env w options))) <= 1)%nat
  /\ (forall error,
        getPublicKey env = Throws error ->
        Traces.submissions (trace (deploy env w options)) = []
        /\ outcome (deploy env w options) = Throws error).
Proof.
  unfold deploy, requestSponsorship, try_catch, bind, call, ret, throw.
  destruct (getPublicKey env) as [pk | e0].
  - destruct (nullish (dep_feeMode options) (defaultFeeMode w));
      cbn [FeeMode_eqb].
    + destruct (deployAccount env _); cbn.
      all: split; [| split; [lia | intros ? [=]]].
      all: intros payload [H | [H | [H | []]]]; try discriminate.
      all: injection H as <-; cbn; repeat split.
    + destruct (sponsor w) as [sp |]; cbn.
      * destruct (getSponsorship sp _) as [resp | e']; cbn.
        -- destruct (deployAccount env _); cbn.
           all: split; [| split; [lia | intros ? [=]]].
           all: intros payload [H | [H | [H | [H | []]]]]; try discriminate.
           all: injection H as <-; cbn; repeat split; discriminate.
        -- split; [| split; [lia | intros ? [=]]].
           intros payload [H | [H | [H | []]]]; discriminate.
      * split; [| split; [lia | intros ? [=]]].
        intros payload [H | [H | []]]; discriminate.
  - cbn. split; [| split; [lia |]].
    + intros payload [H | [H | []]]; discriminate.
    + intros error [= <-]. now split.
Qed.

Lemma deploy_payload_from_provider_witness :
  getPublicKey Examples.undeployed_network = Returns (lit "0xabc")
  /\ In (EvDeployAccount
           {| classHash := lit "0xc1a55";
              constructorCalldata := [lit "0xabc"];
              addressSalt := lit "0xabc";
              feeOptions := no_details |})
        (trace (deploy Examples.undeployed_network Examples.plain_wallet
                  Examples.default_deploy_options)).
Proof.
  assert (Hin : In (EvDeployAccount
           {| classHash := lit "0xc1a55";
              constructorCalldata := [lit "0xabc"];
              addressSalt := lit "0xabc";
              feeOptions := no_details |})
        (trace (deploy Examples.undeployed_network Examples.plain_wallet
                  Examples.default_deploy_options)))
    by (right; right; left; reflexivity).
  split; [| exact Hin].
  exact (proj1 (proj1 (deploy_payload_from_provider
                         Examples.undeployed_network Examples.plain_wallet
                         Examples.default_deploy_options) _ Hin)).
Defined.

(** X18.  [preflight] is read-only: every call it makes to the outside is
    the class-hash query or a simulation, so it never submits a
    transaction and never consults the sponsor, whatever the fee mode. *)
Theorem preflight_read_only (env : Env) (w : Wallet.t)
    (options : PreflightOptions) :
  forallb Traces.is_query (trace (preflight env w options)) = true
  /\ Traces.submissions (trace (preflight env w options)) = []
  /\ Traces.sponsorship_requests (trace (preflight env w options)) = [].
Proof.
  unfold preflight. rewrite isDeployed_run. cbv zeta. cbn [bind app].
  destruct (negb _ && negb (str_eqb (kind options) (lit "execute")));
    [cbn; auto |].
  destruct (FeeMode_eqb _ sponsored && _); [cbn; auto |].
  destruct (0 <? length (nullish (pf_calls options) []))%nat; [| cbn; auto].
  unfold call. cbn [bind app].
  destruct (simulateTransaction env _) as [sim | e]; [| cbn; auto].
  destruct (nth_error sim 0) as [[[[[[| rr] |]] |]] |]; cbn; auto.
Qed.

(** X19.  The gates of [preflight], in order.  An account that
    [isDeployed] reports undeployed fails every kind but ["execute"] with
    "Account not deployed"; past that gate, sponsored mode without a
    sponsor fails with "Sponsor not configured"; both are decided without
    simulating, even when calls are given.  Past both gates and without
    calls the check passes. *)
Theorem preflight_gates (env : Env) (w : Wallet.t)
    (options : PreflightOptions) :
  let undeployed_gate :=
    match getClassHashAt env (address w) with
    | Returns classHash => negb (truthy classHash)
    | Throws _ => true
    end && negb (str_eqb (kind options) (lit "execute")) in
  let sponsor_gate :=
    FeeMode_eqb (nullish (pf_feeMode options) (defaultFeeMode w)) sponsored
    && is_none (sponsor w) in
  (undeployed_gate = true ->
   preflight env w options
   = ([EvGetClassHashAt (address w)],
      Returns (PreflightFailed (lit "Account not deployed"))))
  /\ (undeployed_gate = false -> sponsor_gate = true ->
      preflight env w options
      = ([EvGetClassHashAt (address w)],
         Returns (PreflightFailed (lit "Sponsor not configured"))))
  /\ (undeployed_gate = false -> sponsor_gate = false ->
      nullish (pf_calls options) [] = [] ->
      preflight env w options
      = ([EvGetClassHashAt (address w)], Returns PreflightOk)).
Proof.
  cbv zeta. unfold preflight. rewrite isDeployed_run. cbv zeta.
  cbn [bind app].
  assert (Hneg : negb match getClassHashAt env (address w) with
                      | Returns classHash => truthy classHash
                      | Throws _ => false
                      end
                 = match getClassHashAt env (address w) with
                   | Returns classHash => negb (truthy classHash)
                   | Throws _ => true
                   end)
    by (destruct (getClassHashAt env (address w)); reflexivity).
  rewrite Hneg.
  split; [| split].
  - intros ->. reflexivity.
  - intros -> ->. reflexivity.
  - intros -> -> ->. reflexivity.
Qed.

Lemma preflight_gates_witness :
  preflight Examples.deployed_network Examples.plain_wallet
    {| kind := lit "execute"; pf_calls := Some [Examples.test_call];
       pf_feeMode := Some sponsored |}
  = ([EvGetClassHashAt (lit "0x1")],
     Returns (PreflightFailed (lit "Sponsor not configured"))).
Proof.
  exact (proj1 (proj2 (preflight_gates Examples.deployed_network
                         Examples.plain_wallet
                         {| kind := lit "execute";
                            pf_calls := Some [Examples.test_call];
                            pf_feeMode := Some sponsored |}))
           eq_refl eq_refl).
Defined.

(** X20.  Past the gates and with calls, [preflight] simulates them once
    and reads the first simulated transaction only: a revert reason there
    fails the check with that reason verbatim, a reverted invocation
    without a reason fails it with "Simulation failed", and anything else
    (an empty response, no trace, no execute invocation, an invocation
    that did not revert) passes. *)
Theorem preflight_simulation_verdict (env : Env) (w : Wallet.t)
    (options : PreflightOptions) (c : Call) (cs : list Call)
    (simulation : list SimulatedTransaction) :
  match getClassHashAt env (address w) with
  | Returns classHash => negb (truthy classHash)
  | Throws _ => true
  end && negb (str_eqb (kind options) (lit "execute")) = false ->
  FeeMode_eqb (nullish (pf_feeMode options) (defaultFeeMode w)) sponsored
  && is_none (sponsor w) = false ->
  pf_calls options = Some (c :: cs) ->
  simulateTransaction env (c :: cs) = Returns simulation ->
  trace (preflight env w options)
  = [EvGetClassHashAt (address w); EvSimulateTransaction (c :: cs)]
  /\ (forall reason rest,
        simulation
        = {| transaction_trace :=
               Some {| execute_invocation := Some (Reverted (Some reason)) |} |}
          :: rest ->
        outcome (preflight env w options) = Returns (PreflightFailed reason))
  /\ (forall rest,
        simulation
        = {| transaction_trace :=
               Some {| execute_invocation := Some (Reverted None) |} |}
          :: rest ->
        outcome (preflight env w options)
        = Returns (PreflightFailed (lit "Simulation failed")))
  /\ (match simulation with
      | {| transaction_trace :=
             Some {| execute_invocation := Some (Reverted _) |} |} :: _ =>
          False
      | _ => True
      end ->
      outcome (preflight env w options) = Returns PreflightOk).
Proof.
  intros Hg1 Hg2 Hcalls Hsim.
  unfold preflight. rewrite isDeployed_run. cbv zeta. cbn [bind app].
  assert (Hneg : negb match getClassHashAt env (address w) with
                      | Returns classHash => truthy classHash
                      | Throws _ => false
                      end
                 = match getClassHashAt env (address w) with
                   | Returns classHash => negb (truthy classHash)
                   | Throws _ => true
                   end)
    by (destruct (getClassHashAt env (address w)); reflexivity).
  rewrite Hneg, Hg1, Hg2, Hcalls. cbn [nullish length Nat.ltb Nat.leb].
  unfold call. cbn [bind app]. rewrite Hsim.
  destruct simulation as [| [[[[[| rr] |]] |]] rest]; cbn.
  all: split; [reflexivity |].
  all: split; [intros reason rest' [=]; subst; reflexivity |].
  all: split; [intros rest' [=]; subst; reflexivity |].
  all: try (intros _; reflexivity).
  intros [].
Qed.

Lemma preflight_simulation_verdict_witness :
  outcome (preflight Scenarios.reverting_network Examples.plain_wallet
             (Examples.preflight_execute (Some [Examples.test_call])))
  = Returns (PreflightFailed (lit "ERC20: insufficient balance")).
Proof.
  exact (proj1 (proj2 (preflight_simulation_verdict
                         Scenarios.reverting_network Examples.plain_wallet
                         (Examples.preflight_execute (Some [Examples.test_call]))
                         Examples.test_call [] _ eq_refl eq_refl eq_refl
                         eq_refl))
           _ _ eq_refl).
Defined.

End DeployPreflightExtras.

Section ReadinessExtras.
Import JS Wallet.

Lemma deploy_without_progress (env : Env) (w : Wallet.t)
    (options : DeployOptions) :
  Traces.without_progress (trace (deploy env w options))
  = trace (deploy env w options).
Proof.
  unfold deploy, requestSponsorship, try_catch, bind, call, ret, throw.
  destruct (getPublicKey env) as [pk | e]; [| reflexivity].
  destruct (FeeMode_eqb _ sponsored).
  - destruct (sponsor w) as [sp |]; [| reflexivity].
    destruct (getSponsorship sp _) as [resp | e']; [| reflexivity].
    destruct (deployAccount env _); reflexivity.
  - destruct (deployAccount env _); reflexivity.
Qed.

Lemma without_progress_app (tr1 tr2 : list Event) :
  Traces.without_progress (tr1 ++ tr2)
  = Traces.without_progress tr1 ++ Traces.without_progress tr2.
Proof. apply filter_app. Qed.

(** X21.  With a progress callback that returns normally, READY is
    reported exactly when [ensureReady] returns: a run that fails, in the
    check, the deployment or the wait, never reports READY, and every run
    reports CONNECTED and CHECK_DEPLOYED first. *)
Theorem ensureReady_ready_iff_returns (env : Env) (w : Wallet.t)
    (options : EnsureReadyOptions)
    (callback : ProgressStep -> Outcome Thrown unit) :
  onProgress options = Some callback ->
  (forall step, callback step = Returns tt) ->
  (In READY (progress_steps (trace (ensureReady env w options)))
   <-> outcome (ensureReady env w options) = Returns tt)
  /\ exists rest,
       progress_steps (trace (ensureReady env w options))
       = CONNECTED :: CHECK_DEPLOYED :: rest.
Proof.
  intros Hcb Hok.
  pose proof (fun step => progress_run options callback step Hcb (Hok step))
    as Hprog.
  unfold ensureReady. rewrite !Hprog, isDeployed_run.
  cbv zeta. cbn [bind app].
  destruct (deploy_entered_once env w (as_deploy_options options))
    as [_ Hsteps].
  set (deployed := match getClassHashAt env (address w) with
                   | Returns classHash => truthy classHash
                   | Throws _ => false
                   end).
  assert (Hyes : forall steps : list ProgressStep,
            In READY (steps ++ [READY])
            <-> @Returns Thrown unit tt = Returns tt).
  { intros steps. split; [reflexivity |].
    intros _. apply in_or_app. right. now left. }
  assert (Hno : forall (steps : list ProgressStep) (e : Thrown),
            ~ In READY steps -> In READY steps <-> Throws e = Returns tt).
  { intros steps e Hnot. split; [contradiction | discriminate]. }
  unfold ret, throw.
  destruct (deployed && negb (DeployMode_eqb _ always)).
  - cbn [bind app trace outcome fst snd progress_steps].
    split; [| eexists; reflexivity].
    apply (Hyes [CONNECTED; CHECK_DEPLOYED]).
  - destruct (negb deployed && DeployMode_eqb _ never).
    + cbn [bind app trace outcome fst snd progress_steps].
      split; [| eexists; reflexivity]. apply Hno.
      intros [H | [H | []]]; discriminate.
    + cbn [bind app].
      destruct (deploy env w (as_deploy_options options)) as [trd [tx | e]];
        cbn [trace fst] in Hsteps; cbn [bind app].
      * unfold wait, call. cbn [bind app].
        destruct (tx_wait env (transaction_hash tx)) as [[] | e];
          cbn [bind app trace outcome fst snd progress_steps];
          rewrite progress_steps_app, Hsteps; cbn [app progress_steps];
          (split; [| eexists; reflexivity]).
        -- apply (Hyes [CONNECTED; CHECK_DEPLOYED; DEPLOYING]).
        -- apply Hno. intros [H | [H | [H | []]]]; discriminate.
      * cbn [trace outcome fst snd progress_steps]. rewrite Hsteps.
        split; [| eexists; reflexivity].
        apply Hno. intros [H | [H | [H | []]]]; discriminate.
Qed.

Lemma ensureReady_ready_iff_returns_witness :
  ~ In READY
      (progress_steps
         (trace (ensureReady Examples.rejecting_network Examples.plain_wallet
                   (Examples.ready_options None))))
  /\ outcome (ensureReady Examples.rejecting_network Examples.plain_wallet
                (Examples.ready_options None))
     <> Returns tt.
Proof.
  destruct (ensureReady_ready_iff_returns Examples.rejecting_network
              Examples.plain_wallet (Examples.ready_options None)
              Examples.observer eq_refl (fun _ => eq_refl)) as [Hiff _].
  assert (Hfail : outcome (ensureReady Examples.rejecting_network
                             Examples.plain_wallet
                             (Examples.ready_options None))
                  <> Returns tt) by (vm_compute; discriminate).
  split; [| exact Hfail].
  intros Hin. apply Hfail. now apply Hiff.
Defined.

(** X22.  Whether [ensureReady] deploys, by deploy mode and the answer of
    [isDeployed] (progress callback returning normally): ["always"] deploys
    once even when the account is already deployed, ["if_needed"] deploys
    once exactly when it is not, and ["never"] does not deploy. *)
Theorem ensureReady_deploys_by_mode (env : Env) (w : Wallet.t)
    (options : EnsureReadyOptions)
    (callback : ProgressStep -> Outcome Thrown unit) (deployed : bool) :
  onProgress options = Some callback ->
  (forall step, callback step = Returns tt) ->
  outcome (isDeployed env w) = Returns deployed ->
  deploy_count (trace (ensureReady env w options))
  = match nullish (deploy_mode options) if_needed, deployed with
    | always, _ => 1
    | if_needed, false => 1
    | _, _ => 0
    end%nat.
Proof.
  intros Hcb Hok Hdep.
  pose proof (fun step => progress_run options callback step Hcb (Hok step))
    as Hprog.
  rewrite isDeployed_run in Hdep. cbn in Hdep. injection Hdep as Hdep.
  unfold ensureReady. rewrite !Hprog, isDeployed_run, Hdep.
  cbv zeta. cbn [bind app].
  destruct (deploy_entered_once env w (as_deploy_options options))
    as [Hcount _].
  unfold ret, throw, wait, call.
  destruct (deploy env w (as_deploy_options options)) as [trd [tx | e]];
    cbn [trace fst] in Hcount.
  - destruct (nullish (deploy_mode options) if_needed), deployed;
      cbn [andb negb DeployMode_eqb bind app];
      try (destruct (tx_wait env (transaction_hash tx)) as [[] | e]);
      cbn [trace fst deploy_count];
      rewrite ?deploy_count_app, ?Hcount; reflexivity.
  - destruct (nullish (deploy_mode options) if_needed), deployed;
      cbn [andb negb DeployMode_eqb bind app trace fst deploy_count];
      rewrite ?Hcount; reflexivity.
Qed.

Lemma ensureReady_deploys_by_mode_witness :
  deploy_count
    (trace (ensureReady Examples.deployed_network Examples.plain_wallet
              (Examples.ready_options (Some always)))) = 1%nat.
Proof.
  exact (ensureReady_deploys_by_mode Examples.deployed_network
           Examples.plain_wallet (Examples.ready_options (Some always))
           Examples.observer true eq_refl (fun _ => eq_refl) eq_refl).
Defined.

(** X23.  The progress callback is a side channel: leaving it out changes
    neither the outcome of [ensureReady] nor its calls to the network, the
    account and the sponsor; the run without a callback makes the calls of
    a run with a callback that returns normally, minus the progress
    reports. *)
Theorem ensureReady_callback_side_channel (env : Env) (w : Wallet.t)
    (options : EnsureReadyOptions)
    (callback : ProgressStep -> Outcome Thrown unit) :
  (forall step, callback step = Returns tt) ->
  outcome (ensureReady env w (Traces.with_callback options None))
  = outcome (ensureReady env w (Traces.with_callback options (Some callback)))
  /\ trace (ensureReady env w (Traces.with_callback options None))
     = Traces.without_progress
         (trace (ensureReady env w
                   (Traces.with_callback options (Some callback))))
  /\ progress_steps
       (trace (ensureReady env w (Traces.with_callback options None))) = [].
Proof.
  intros Hok.
  pose proof (fun step =>
                progress_run (Traces.with_callback options (Some callback))
                  callback step eq_refl (Hok step)) as Hprog.
  assert (Hnone : forall step,
            progress (Traces.with_callback options None) step = ret tt)
    by reflexivity.
  unfold ensureReady. rewrite !Hprog, !Hnone, !isDeployed_run.
  change (as_deploy_options (Traces.with_callback options None))
    with (as_deploy_options options).
  change (as_deploy_options (Traces.with_callback options (Some callback)))
    with (as_deploy_options options).
  change (deploy_mode (Traces.with_callback options None))
    with (deploy_mode options).
  change (deploy_mode (Traces.with_callback options (Some callback)))
    with (deploy_mode options).
  cbv zeta. unfold ret. cbn [bind app].
  pose proof (deploy_without_progress env w (as_deploy_options options))
    as Hnp.
  destruct (deploy_entered_once env w (as_deploy_options options))
    as [_ Hsteps].
  destruct (_ && negb (DeployMode_eqb _ always)); [cbn; auto |].
  destruct (negb _ && DeployMode_eqb _ never); [cbn; auto |].
  cbn [bind app].
  destruct (deploy env w (as_deploy_options options)) as [trd [tx | e]];
    cbn [trace fst] in Hnp, Hsteps; cbn [bind app].
  - unfold wait, call. cbn [bind app].
    destruct (tx_wait env (transaction_hash tx)) as [[] | e];
      cbn [bind app trace outcome fst snd].
    + split; [reflexivity |]. split.
      * unfold Traces.without_progress in *.
        cbn [filter Traces.is_progress negb].
        rewrite filter_app, Hnp. reflexivity.
      * cbn [progress_steps]. rewrite progress_steps_app, Hsteps.
        reflexivity.
    + split; [reflexivity |]. split.
      * unfold Traces.without_progress in *.
        cbn [filter Traces.is_progress negb].
        rewrite filter_app, Hnp. reflexivity.
      * cbn [progress_steps]. rewrite progress_steps_app, Hsteps.
        reflexivity.
  - cbn [trace outcome fst snd]. split; [reflexivity |]. split.
    + unfold Traces.without_progress in *.
      cbn [filter Traces.is_progress negb]. now rewrite Hnp.
    + cbn [progress_steps]. exact Hsteps.
Qed.

Lemma ensureReady_callback_side_channel_witness :
  outcome (ensureReady Examples.undeployed_network Examples.plain_wallet
             (Traces.with_callback (Examples.ready_options None) None))
  = Returns tt
  /\ progress_steps
       (trace (ensureReady Examples.undeployed_network Examples.plain_wallet
                 (Traces.with_callback (Examples.ready_options None) None)))
     = [].
Proof.
  destruct (ensureReady_callback_side_channel Examples.undeployed_network
              Examples.plain_wallet (Examples.ready_options None)
              Examples.observer (fun _ => eq_refl)) as (Hout & _ & Hsilent).
  split; [rewrite Hout; vm_compute; reflexivity | exact Hsilent].
Defined.

End ReadinessExtras.

Section TransferExtras.
Import JS Wallet.



End TransferExtras.

Section VariantExtras.
Import JS Wallet.

Lemma variant_isDeployed (env : Env) (w : Wallet.t) :
  PaymasterWallet.isDeployed env (PaymasterWallet.alongside w)
  = isDeployed env w.
Proof. reflexivity. Qed.

(** A property of every call of a run follows from the parts of the run. *)
Lemma Forall_trace_bind {A B : Type} (P : Event -> Prop) (m : M A)
    (k : A -> M B) :
  Forall P (trace m) -> (forall a, Forall P (trace (k a))) ->
  Forall P (trace (bind m k)).
Proof.
  intros Hm Hk. destruct m as [tr [a | e]]; cbn [bind trace fst] in *.
  - specialize (Hk a). destruct (k a) as [tr' o]. cbn [trace fst] in *.
    apply Forall_app. now split.
  - exact Hm.
Qed.

Lemma Forall_trace_progress (P : Event -> Prop)
    (options : EnsureReadyOptions) (step : ProgressStep) :
  P (EvProgress step) -> Forall P (trace (progress options step)).
Proof.
  intros HP. unfold progress, call, ret.
  destruct (onProgress options); cbn [trace fst]; auto.
Qed.

Lemma no_sponsorship_requests (tr : list Event) :
  Forall (fun ev => match ev with EvGetSponsorship _ => False | _ => True end)
         tr ->
  Traces.sponsorship_requests tr = [].
Proof.
  induction 1 as [| ev tr Hev _ IH]; [reflexivity |].
  destruct ev; cbn [Traces.sponsorship_requests]; auto. contradiction.
Qed.

(** X25.  When the fee mode resolves to [user_pays], the two copies of the
    wallet class do the same: [deploy] and [ensureReady] of the paymaster
    variant make the calls, and have the outcome, of those of the wallet
    with the sponsor callback. *)
Theorem variants_agree_when_user_pays (env : Env) (w : Wallet.t)
    (options : EnsureReadyOptions) :
  nullish (er_feeMode options) (Wallet.defaultFeeMode w) = user_pays ->
  PaymasterWallet.deploy env
  = deploy env w (as_deploy_options options)
  /\ PaymasterWallet.ensureReady env (PaymasterWallet.alongside w) options
     = ensureReady env w options.
Proof.
  intros Hmode.
  assert (Hdeploy : PaymasterWallet.deploy env
                    = deploy env w (as_deploy_options options)).
  { unfold PaymasterWallet.deploy, deploy.
    change (dep_feeMode (as_deploy_options options)) with (er_feeMode options).
    rewrite Hmode. reflexivity. }
  split; [exact Hdeploy |].
  unfold PaymasterWallet.ensureReady, ensureReady.
  rewrite Hdeploy, variant_isDeployed. reflexivity.
Qed.

Lemma variants_agree_when_user_pays_witness :
  trace (PaymasterWallet.ensureReady Examples.undeployed_network
           (PaymasterWallet.alongside Examples.plain_wallet)
           (Examples.ready_options None))
  = trace (ensureReady Examples.undeployed_network Examples.plain_wallet
             (Examples.ready_options None))
  /\ progress_steps
       (trace (PaymasterWallet.ensureReady Examples.undeployed_network
                 (PaymasterWallet.alongside Examples.plain_wallet)
                 (Examples.ready_options None)))
     = [CONNECTED; CHECK_DEPLOYED; DEPLOYING; READY].
Proof.
  destruct (variants_agree_when_user_pays Examples.undeployed_network
              Examples.plain_wallet (Examples.ready_options None) eq_refl)
    as [_ Hready].
  rewrite Hready. split; [reflexivity | vm_compute; reflexivity].
Defined.

(** X26.  The paymaster variant never sponsors a deployment: whatever the
    default fee mode of the wallet and whatever the options and the
    progress callback do, [ensureReady] does not consult a sponsor, and a
    deployment it submits carries no fee details and has the public key as
    its salt. *)
Theorem variant_deployment_unsponsored (env : Env) (pw : PaymasterWallet.t)
    (options : EnsureReadyOptions) :
  Traces.sponsorship_requests
    (trace (PaymasterWallet.ensureReady env pw options)) = []
  /\ forall payload,
       In (EvDeployAccount payload)
          (trace (PaymasterWallet.ensureReady env pw options)) ->
       feeOptions payload = no_details
       /\ getPublicKey env = Returns (addressSalt payload).
Proof.
  set (P := fun ev =>
              match ev with
              | EvGetSponsorship _ => False
              | EvDeployAccount payload =>
                  feeOptions payload = no_details
                  /\ getPublicKey env = Returns (addressSalt payload)
              | _ => True
              end).
  assert (Hall : Forall P (trace (PaymasterWallet.ensureReady env pw options))).
  { unfold PaymasterWallet.ensureReady.
    apply Forall_trace_bind; [now apply Forall_trace_progress | intros _].
    apply Forall_trace_bind; [now apply Forall_trace_progress | intros _].
    apply Forall_trace_bind.
    { unfold PaymasterWallet.isDeployed, try_catch, bind, call, ret.
      destruct (getClassHashAt env _); repeat constructor. }
    intros deployed.
    destruct (deployed && negb (DeployMode_eqb _ always)).
    { apply Forall_trace_bind; [now apply Forall_trace_progress | intros _].
      constructor. }
    destruct (negb deployed && DeployMode_eqb _ never); [constructor |].
    apply Forall_trace_bind; [now apply Forall_trace_progress | intros _].
    apply Forall_trace_bind.
    { unfold PaymasterWallet.deploy.
      apply Forall_trace_bind; [repeat constructor | intros _].
      cbv zeta. unfold bind, call, ret.
      destruct (getPublicKey env) as [pk | e] eqn:Hpk; cbn [trace fst].
      - destruct (deployAccount env _); cbn [trace fst app];
          repeat constructor.
      - repeat constructor. }
    intros tx.
    apply Forall_trace_bind; [unfold wait, call; repeat constructor |].
    intros _. now apply Forall_trace_progress. }
  split.
  - apply no_sponsorship_requests. revert Hall. apply Forall_impl.
    intros [] H; try exact I. exact H.
  - intros payload Hin. rewrite Forall_forall in Hall.
    exact (Hall _ Hin).
Qed.

(** X27.  The two copies of [preflight] differ by the sponsor gate alone:
    they make the same calls and give the same result, except when the
    account passes the deployment gate and sponsored mode is asked of a
    wallet without a sponsor; there the wallet with the sponsor callback
    answers "Sponsor not configured" and the paymaster variant goes on. *)
Theorem preflight_variants_differ_by_sponsor_gate (env : Env) (w : Wallet.t)
    (options : PreflightOptions) :
  let undeployed_gate :=
    match getClassHashAt env (Wallet.address w) with
    | Returns classHash => negb (truthy classHash)
    | Throws _ => true
    end && negb (str_eqb (kind options) (lit "execute")) in
  let sponsor_gate :=
    FeeMode_eqb (nullish (pf_feeMode options) (Wallet.defaultFeeMode w))
      sponsored
    && is_none (sponsor w) in
  (PaymasterWallet.preflight env (PaymasterWallet.alongside w) options
   = preflight env w options
   <-> undeployed_gate || negb sponsor_gate = true)
  /\ (undeployed_gate || negb sponsor_gate = false ->
      preflight env w options
      = ([EvGetClassHashAt (Wallet.address w)],
         Returns (PreflightFailed (lit "Sponsor not configured")))).
Proof.
  cbv zeta.
  unfold PaymasterWallet.preflight, preflight.
  rewrite variant_isDeployed, isDeployed_run.
  cbv zeta. cbn [bind try_catch app].
  set (deployed := match getClassHashAt env (Wallet.address w) with
                   | Returns classHash => truthy classHash
                   | Throws _ => false
                   end).
  assert (Hgate : match getClassHashAt env (Wallet.address w) with
                  | Returns classHash => negb (truthy classHash)
                  | Throws _ => true
                  end = negb deployed).
  { subst deployed. now destruct (getClassHashAt env (Wallet.address w)). }
  rewrite Hgate. clearbody deployed. clear Hgate.
  destruct (negb deployed && negb (str_eqb (kind options) (lit "execute"))).
  { cbn. split; [split; reflexivity | discriminate]. }
  destruct (FeeMode_eqb _ sponsored && is_none (sponsor w)).
  2:{ cbn. split; [split; reflexivity | discriminate]. }
  cbn [orb negb]. split; [| reflexivity].
  split; [| discriminate]. intros H. exfalso.
  destruct (0 <? length (nullish (pf_calls options) []))%nat.
  - unfold bind, call, ret in H.
    destruct (simulateTransaction env _) as [sim | e].
    + destruct (nth_error sim 0) as [[[[[[| rr] |]] |]] |];
        cbn in H; discriminate.
    + cbn in H. discriminate.
  - cbn in H. discriminate.
Qed.

End VariantExtras.
